(** * Research-AI-Summarizer: the RAG pipeline of [backend/utils/rag_processor.py]

    A shallow embedding of [RAGProcessor] (chunking, in-memory chunk store,
    retrieval, cosine similarity, multi-provider answer generation) and the
    properties of it that the design document states.

    Conventions of the embedding.
    - Python [str] is [string]; characters are code points below 256.
    - Python [int] is [Z]; list lengths and [enumerate] indices are [nat].
    - Python [float] is [R] (exact arithmetic).
    - A Python [dict] is an association list in insertion order with unique
      keys: iteration order is insertion order, and assigning to a key that is
      already present keeps its position.
    - A Python computation is an [outcome]: it returns, raises, or is still
      running when the fuel of the enclosing loop is exhausted. *)

From Stdlib Require Import List String Ascii Bool Arith ZArith Lia.
From Stdlib Require Import Reals Lra.
From Stdlib Require Import Sorted Permutation FinFun.
From Stdlib Require Import DecimalString DecimalNat.
Import ListNotations.

Local Open Scope string_scope.
Local Open Scope list_scope.

(** ** Part I: the embedding *)

(** *** Exceptions and outcomes *)

Module Py.

(** The exceptions that [rag_processor.py] raises or catches.  [ExternalError]
    is any exception coming out of a vendor SDK, carrying its [str()]. *)
Inductive exn : Type :=
| ValueError (msg : string)
| KeyError (key_repr : string)
| ExternalError (msg : string).

Inductive outcome (A : Type) : Type :=
| Ok (a : A)
| Raise (e : exn)
| OutOfFuel.

Arguments Ok {A} a.
Arguments Raise {A} e.
Arguments OutOfFuel {A}.

Definition bind {A B : Type} (m : outcome A) (k : A -> outcome B) : outcome B :=
  match m with
  | Ok a => k a
  | Raise e => Raise e
  | OutOfFuel => OutOfFuel
  end.

(** [try: body / except Exception as e: handler e]. *)
Definition try_except {A : Type} (body : outcome A) (handler : exn -> outcome A)
  : outcome A :=
  match body with
  | Raise e => handler e
  | other => other
  end.

(** [str(i)] for a non-negative integer. *)
Definition str_nat (n : nat) : string := NilEmpty.string_of_uint (Nat.to_uint n).

(** [repr(k)] of a string key without quotes or backslashes in it. *)
Definition repr_str (k : string) : string := "'" ++ k ++ "'".

(** [str(e)]: the message of a [ValueError] or of a vendor exception; the
    [repr] of the key for a [KeyError].  [str(None)] is what the orchestrator
    prints when no exception was recorded. *)
Definition str_exn (e : exn) : string :=
  match e with
  | ValueError msg => msg
  | KeyError key_repr => key_repr
  | ExternalError msg => msg
  end.

Definition str_opt_exn (o : option exn) : string :=
  match o with
  | Some e => str_exn e
  | None => "None"
  end.

Definition nl : string := String (ascii_of_nat 10) "".

(** Truthiness of a string ([if s:]) and of an optional string such as an
    environment variable read with [os.getenv]. *)
Definition truthy_str (s : string) : bool :=
  match s with
  | EmptyString => false
  | String _ _ => true
  end.

Definition truthy_opt (o : option string) : bool :=
  match o with
  | Some s => truthy_str s
  | None => false
  end.

(** [c.isspace()]. *)
Definition isspace (c : ascii) : bool :=
  let n := nat_of_ascii c in
  (((9 <=? n) && (n <=? 13)) || ((28 <=? n) && (n <=? 32))
   || (n =? 133) || (n =? 160))%nat.

(** [s.split()]: maximal runs of non-whitespace characters.  [cur] is the word
    being read. *)
Fixpoint split_from (cur : string) (s : string) : list string :=
  match s with
  | EmptyString => if truthy_str cur then [cur] else []
  | String c rest =>
      if isspace c
      then (if truthy_str cur then cur :: split_from "" rest
            else split_from "" rest)
      else split_from (cur ++ String c "") rest
  end.

Definition split (s : string) : list string := split_from "" s.

(** [sep.join(ls)]. *)
Definition join (sep : string) (ls : list string) : string := String.concat sep ls.

(** [c.lower()] for a code point below 256: the capitals [A]-[Z] (65-90) and
    the Latin-1 capitals (192-214 and 216-222) move up by 32; every other
    character, the multiplication sign 215 included, is its own lower case. *)
Definition lower_ascii (c : ascii) : ascii :=
  let n := nat_of_ascii c in
  if (((65 <=? n) && (n <=? 90)) || ((192 <=? n) && (n <=? 214))
      || ((216 <=? n) && (n <=? 222)))%nat
  then ascii_of_nat (n + 32) else c.

Fixpoint lower (s : string) : string :=
  match s with
  | EmptyString => EmptyString
  | String c rest => String (lower_ascii c) (lower rest)
  end.

(** [needle in haystack] for strings. *)
Definition contains (needle haystack : string) : bool :=
  match String.index 0 needle haystack with
  | Some _ => true
  | None => false
  end.

(** [s[:n]] for [n >= 0]. *)
Definition take (n : nat) (s : string) : string := String.substring 0 n s.

(** Normalisation of a slice bound against a sequence of length [n]. *)
Definition slice_bound (n : nat) (i : Z) : nat :=
  if (i <? 0)%Z then Z.to_nat (Z.max 0 (Z.of_nat n + i))
  else Nat.min (Z.to_nat i) n.

(** [l[lo:hi]]. *)
Definition slice {A : Type} (l : list A) (lo hi : Z) : list A :=
  let a := slice_bound (List.length l) lo in
  let b := slice_bound (List.length l) hi in
  firstn (b - a) (skipn a l).

(** [l[:hi]]. *)
Definition slice_to {A : Type} (l : list A) (hi : Z) : list A :=
  firstn (slice_bound (List.length l) hi) l.

(** [set(l)] as far as membership and cardinality go. *)
Definition set_of (l : list string) : list string := nodup string_dec l.

(** [enumerate(l)]. *)
Definition enumerate {A : Type} (l : list A) : list (nat * A) :=
  combine (seq 0 (List.length l)) l.

End Py.

Import Py.

Declare Scope py_scope.
Delimit Scope py_scope with py.
Notation "x <- m ;; k" := (bind m (fun x => k))
  (at level 61, m at next level, right associativity) : py_scope.

(** *** Dictionaries *)

Module Dict.

Section Dict.
Context {V : Type}.

Definition t := list (string * V).

Definition empty : t := [].

(** [d.get(k)] / [k in d]. *)
Fixpoint get (k : string) (d : t) : option V :=
  match d with
  | [] => None
  | (k', v) :: d' => if String.eqb k' k then Some v else get k d'
  end.

Definition mem (k : string) (d : t) : bool :=
  match get k d with
  | Some _ => true
  | None => false
  end.

(** [d[k] = v]. *)
Fixpoint set (k : string) (v : V) (d : t) : t :=
  match d with
  | [] => [(k, v)]
  | (k', v') :: d' =>
      if String.eqb k' k then (k', v) :: d' else (k', v') :: set k v d'
  end.

(** A sequence of assignments [d[k] = v], in order. *)
Definition set_all (writes : list (string * V)) (d : t) : t :=
  fold_left (fun acc kv => set (fst kv) (snd kv) acc) writes d.

(** [d.items()]. *)
Definition items (d : t) : list (string * V) := d.

Definition keys (d : t) : list string := map fst d.
End Dict.

Arguments t V : clear implicits.

End Dict.

(** *** The chunker: [RAGProcessor._chunk_document] *)

(** The [while i < len(words)] loop; every evaluation of the loop condition
    costs one unit of fuel. *)
Fixpoint chunk_loop (fuel : nat) (words : list string) (i chunk_size chunk_overlap : Z)
  : outcome (list string) :=
  match fuel with
  | O => OutOfFuel
  | S fuel' =>
      if (i <? Z.of_nat (List.length words))%Z then
        let chunk := join " " (slice words i (i + chunk_size)) in
        (rest <- chunk_loop fuel' words (i + (chunk_size - chunk_overlap))
                   chunk_size chunk_overlap ;;
         Ok (chunk :: rest))%py
      else Ok []
  end.

Definition _chunk_document (fuel : nat) (text : string) (chunk_size chunk_overlap : Z)
  : outcome (list string) :=
  let words := split text in
  if (Z.of_nat (List.length words) <=? chunk_size)%Z then Ok [text]
  else chunk_loop fuel words 0 chunk_size chunk_overlap.

(** The window starts the design document lists: [0, step, 2*step, ...] as
    long as the start is below the word count [n]. *)
Definition window_offsets (n : nat) (step : Z) : list Z :=
  map (fun k => (Z.of_nat k * step)%Z)
      (seq 0 (Z.to_nat ((Z.of_nat n + step - 1) / step))).

(** The window of [chunk_size] words starting at word [off], joined back. *)
Definition window (words : list string) (chunk_size off : Z) : string :=
  join " " (firstn (Z.to_nat chunk_size) (skipn (Z.to_nat off) words)).

(** *** Cosine similarity: [RAGProcessor._cosine_similarity] *)

Local Open Scope R_scope.

Definition vector := list R.

Fixpoint dot_product (v1 v2 : vector) : R :=
  match v1, v2 with
  | x :: v1', y :: v2' => x * y + dot_product v1' v2'
  | _, _ => 0
  end.

(** [np.dot] on one-dimensional arrays: the shapes must agree. *)
Definition np_dot (v1 v2 : vector) : outcome R :=
  if Nat.eqb (List.length v1) (List.length v2) then Ok (dot_product v1 v2)
  else Raise (ValueError "shapes not aligned").

(** [np.linalg.norm]. *)
Definition norm (v : vector) : R := sqrt (dot_product v v).

Definition is_zero (x : R) : bool := if Req_dec_T x 0 then true else false.

Definition _cosine_similarity (vec1 vec2 : vector) : outcome R :=
  (dot <- np_dot vec1 vec2 ;;
   let norm_vec1 := norm vec1 in
   let norm_vec2 := norm vec2 in
   if is_zero norm_vec1 || is_zero norm_vec2 then Ok 0
   else Ok (dot / (norm_vec1 * norm_vec2)))%py.

Local Close Scope R_scope.

(** *** Sorting: [list.sort(key=lambda x: x[1], reverse=True)]

    [list.sort] is stable, also with [reverse=True]: elements with equal keys
    keep their order.  On a totally ordered key the stable arrangement is
    unique, and insertion from the right computes it. *)

Section StableSort.
Context {A K : Type}.
Variable key : A -> K.
(** [gtb a b]: [a] is strictly greater than [b]. *)
Variable gtb : K -> K -> bool.

Fixpoint insert_desc (x : A) (l : list A) : list A :=
  match l with
  | [] => [x]
  | y :: l' => if gtb (key y) (key x) then y :: insert_desc x l' else x :: l
  end.

Definition sort_desc (l : list A) : list A := fold_right insert_desc [] l.
End StableSort.

Definition Rgtb (x y : R) : bool := if Rlt_dec y x then true else false.
Definition nat_gtb (x y : nat) : bool := Nat.ltb y x.

(** *** Data model *)

(** A stored chunk: the dict with keys [document_id], [chunk_text] and
    [chunk_index] that [process_document] builds. *)
Record Chunk : Type := mkChunk {
  document_id : string;
  chunk_text : string;
  chunk_index : nat
}.

(** A retrieval result: a copy of the chunk with the key [id] added. *)
Record ChunkData : Type := mkChunkData {
  chunk : Chunk;
  id : string
}.

(** The two in-memory dicts of a [RAGProcessor], both keyed by chunk id. *)
Record Store : Type := mkStore {
  document_chunks : Dict.t Chunk;
  document_embeddings : Dict.t vector
}.

(** [RAGProcessor.__init__]. *)
Definition init : Store :=
  {| document_chunks := Dict.empty; document_embeddings := Dict.empty |}.

Record Message : Type := mkMessage {
  role : string;
  content : string
}.

(** The dicts that [process_document] and [answer_question] return, one
    constructor per return statement shape. *)
Inductive Response : Type :=
| ProcessSuccess (doc : string) (chunk_count : nat) (chunk_ids : list string)
                 (warning : option string)
| ErrorResponse (error : string)
| FallbackAnswer (answer : string) (used : string)
| AnswerSuccess (answer : string) (used : string) (sources : list ChunkData).

(** The keys of a response.  The fallback answer carries no [status]. *)
Definition status (r : Response) : option string :=
  match r with
  | ProcessSuccess _ _ _ _ => Some "success"
  | ErrorResponse _ => Some "error"
  | FallbackAnswer _ _ => None
  | AnswerSuccess _ _ _ => Some "success"
  end.

Definition error (r : Response) : option string :=
  match r with
  | ErrorResponse e => Some e
  | _ => None
  end.

Definition model_used (r : Response) : option string :=
  match r with
  | FallbackAnswer _ m => Some m
  | AnswerSuccess _ m _ => Some m
  | _ => None
  end.

Definition source_chunks (r : Response) : option (list ChunkData) :=
  match r with
  | FallbackAnswer _ _ => Some []
  | AnswerSuccess _ _ cs => Some cs
  | _ => None
  end.

Definition fallback (r : Response) : option bool :=
  match r with
  | FallbackAnswer _ _ => Some true
  | _ => None
  end.

(** The module globals set at import time. *)
Record Config : Type := mkConfig {
  HAS_OPENAI : bool;
  OPENAI_API_KEY : option string;
  HAS_GENAI : bool;
  GEMINI_API_KEY : option string;
  HAS_ANTHROPIC : bool;
  ANTHROPIC_API_KEY : option string;
  HAS_MISTRAL : bool;
  MISTRAL_API_KEY : option string;
  HAS_SUPABASE : bool;
  (** [supabase_client] is a client object or [None]. *)
  supabase_client : bool
}.

(** The vendor SDK calls, as the processor sees them. *)
Record Services : Type := mkServices {
  (** [openai_client.embeddings.create(model, input).data[0].embedding] *)
  openai_embeddings_create : string -> outcome vector;
  (** [supabase_client.table("document_chunks").insert(row).execute()] *)
  supabase_insert : string -> string -> string -> vector -> outcome unit;
  (** [supabase_client.rpc("match_document_chunks", args).execute().data] *)
  supabase_match_document_chunks : vector -> string -> Z -> outcome (list ChunkData);
  (** the body of the [try] of [_generate_answer_gemini] after the prompt is
      built: model listing and choice, the chat or the single prompt, and the
      text of the response *)
  gemini_generate : string -> list Message -> string -> outcome string;
  (** [openai_client.chat.completions.create(...).choices[0].message.content] *)
  openai_chat_completions_create : list Message -> outcome string;
  (** [Anthropic(...).messages.create(model, system, messages, max_tokens)];
      [None] is a response without content *)
  anthropic_messages_create : string -> string -> list Message -> outcome (option string);
  (** [MistralClient(...).chat(model, messages, ...)]; [None] is a response
      without choices *)
  mistral_chat : string -> list Message -> outcome (option string)
}.

Definition openai_ready (cfg : Config) : bool :=
  HAS_OPENAI cfg && truthy_opt (OPENAI_API_KEY cfg).
Definition gemini_ready (cfg : Config) : bool :=
  HAS_GENAI cfg && truthy_opt (GEMINI_API_KEY cfg).
Definition claude_ready (cfg : Config) : bool :=
  HAS_ANTHROPIC cfg && truthy_opt (ANTHROPIC_API_KEY cfg).
Definition mistral_ready (cfg : Config) : bool :=
  HAS_MISTRAL cfg && truthy_opt (MISTRAL_API_KEY cfg).
Definition supabase_ready (cfg : Config) : bool :=
  HAS_SUPABASE cfg && supabase_client cfg.

(** [f"{document_id}_chunk_{i}"]. *)
Definition chunk_id_of (doc : string) (i : nat) : string :=
  doc ++ "_chunk_" ++ str_nat i.

(** *** State and exceptions together *)

(** A method of the processor: it may update the store before it raises. *)
Definition M (A : Type) : Type := Store -> outcome A * Store.

Definition mret {A : Type} (a : A) : M A := fun st => (Ok a, st).

Definition mbind {A B : Type} (m : M A) (k : A -> M B) : M B :=
  fun st =>
    match m st with
    | (Ok a, st') => k a st'
    | (Raise e, st') => (Raise e, st')
    | (OutOfFuel, st') => (OutOfFuel, st')
    end.

Definition lift {A : Type} (o : outcome A) : M A := fun st => (o, st).

Definition modify (f : Store -> Store) : M unit := fun st => (Ok tt, f st).

Definition mtry {A : Type} (body : M A) (handler : exn -> M A) : M A :=
  fun st =>
    match body st with
    | (Raise e, st') => handler e st'
    | other => other
    end.

Declare Scope m_scope.
Delimit Scope m_scope with M.
Notation "x <~ m ;; k" := (mbind m (fun x => k))
  (at level 61, m at next level, right associativity) : m_scope.
Notation "m ;;; k" := (mbind m (fun _ => k))
  (at level 61, right associativity) : m_scope.

Section Processor.
Variable cfg : Config.
Variable ext : Services.

(** *** Ingestion *)

Definition _generate_embedding_openai (text : string) : outcome vector :=
  if negb (HAS_OPENAI cfg) || negb (truthy_opt (OPENAI_API_KEY cfg))
  then Raise (ValueError "OpenAI API key not available for embeddings")
  else openai_embeddings_create ext text.

Definition _store_chunk_in_supabase (chunk_id doc text : string) (embedding : vector)
  : outcome unit :=
  if negb (HAS_SUPABASE cfg) || negb (supabase_client cfg)
  then Raise (ValueError "Supabase client not available")
  else try_except (supabase_insert ext chunk_id doc text embedding)
                  (fun e => Raise e).

Definition put_chunk (chunk_id : string) (c : Chunk) (st : Store) : Store :=
  {| document_chunks := Dict.set chunk_id c (document_chunks st);
     document_embeddings := document_embeddings st |}.

Definition put_embedding (chunk_id : string) (e : vector) (st : Store) : Store :=
  {| document_chunks := document_chunks st;
     document_embeddings := Dict.set chunk_id e (document_embeddings st) |}.

(** The loop of the embedding branch; [chunk_ids] is the list built so far. *)
Fixpoint embed_and_store (doc : string) (items : list (nat * string))
         (chunk_ids : list string) : M (list string) :=
  match items with
  | [] => mret chunk_ids
  | (i, chunk_i) :: rest =>
      let chunk_id := chunk_id_of doc i in
      (embedding <~ lift (_generate_embedding_openai chunk_i) ;;
       (if HAS_SUPABASE cfg && supabase_client cfg
        then lift (_store_chunk_in_supabase chunk_id doc chunk_i embedding)
        else (modify (put_chunk chunk_id (mkChunk doc chunk_i i)) ;;;
              modify (put_embedding chunk_id embedding))) ;;;
       embed_and_store doc rest (chunk_ids ++ [chunk_id]))%M
  end.

(** The loop of the branch without embeddings. *)
Fixpoint store_plain (doc : string) (items : list (nat * string))
         (chunk_ids : list string) : M (list string) :=
  match items with
  | [] => mret chunk_ids
  | (i, chunk_i) :: rest =>
      let chunk_id := chunk_id_of doc i in
      (modify (put_chunk chunk_id (mkChunk doc chunk_i i)) ;;;
       store_plain doc rest (chunk_ids ++ [chunk_id]))%M
  end.

(** The body of the [try] of [process_document]. *)
Definition process_document_body (fuel : nat) (doc document_text : string)
           (chunk_size chunk_overlap : Z) : M Response :=
  (chunks <~ lift (_chunk_document fuel document_text chunk_size chunk_overlap) ;;
   if HAS_OPENAI cfg && truthy_opt (OPENAI_API_KEY cfg)
   then (chunk_ids <~ embed_and_store doc (enumerate chunks) [] ;;
         mret (ProcessSuccess doc (List.length chunks) chunk_ids None))
   else (chunk_ids <~ store_plain doc (enumerate chunks) [] ;;
         mret (ProcessSuccess doc (List.length chunks) chunk_ids
                 (Some "Embeddings not generated due to missing OpenAI API key"))))%M.

Definition process_document (fuel : nat) (doc document_text : string)
           (chunk_size chunk_overlap : Z) : M Response :=
  mtry (process_document_body fuel doc document_text chunk_size chunk_overlap)
       (fun e => mret (ErrorResponse (str_exn e))).

(** *** Retrieval *)

(** [[chunk for chunk_id, chunk in items if chunk["document_id"] == doc]] *)
Definition chunks_of (st : Store) (doc : string) : list (string * Chunk) :=
  filter (fun kv => String.eqb (document_id (snd kv)) doc)
         (Dict.items (document_chunks st)).

(** The loop that fills [similarities]. *)
Fixpoint similarities_of (st : Store) (query_embedding : vector)
         (items : list (string * Chunk)) (doc : string)
  : outcome (list (string * R)) :=
  match items with
  | [] => Ok []
  | (chunk_id, c) :: rest =>
      if String.eqb (document_id c) doc then
        match Dict.get chunk_id (document_embeddings st) with
        | Some chunk_embedding =>
            (similarity <- _cosine_similarity query_embedding chunk_embedding ;;
             others <- similarities_of st query_embedding rest doc ;;
             Ok ((chunk_id, similarity) :: others))%py
        | None => similarities_of st query_embedding rest doc
        end
      else similarities_of st query_embedding rest doc
  end.

(** [sum(1 for word in query_words if word in chunk_text)] *)
Definition keyword_score (query_words : list string) (text : string) : nat :=
  List.length (filter (fun word => contains word text) query_words).

(** The loop that fills [chunk_scores]. *)
Definition chunk_scores_of (st : Store) (query_words : list string) (doc : string)
  : list (string * nat) :=
  map (fun kv => (fst kv, keyword_score query_words (lower (chunk_text (snd kv)))))
      (chunks_of st doc).

(** The loop that builds [result] from [top_chunk_ids]. *)
Fixpoint chunk_data_of (st : Store) (top_chunk_ids : list string)
  : outcome (list ChunkData) :=
  match top_chunk_ids with
  | [] => Ok []
  | chunk_id :: rest =>
      match Dict.get chunk_id (document_chunks st) with
      | Some c =>
          (others <- chunk_data_of st rest ;;
           Ok (mkChunkData c chunk_id :: others))%py
      | None => Raise (KeyError (repr_str chunk_id))
      end
  end.

Definition vector_search_in_memory (st : Store) (query_embedding : vector)
           (doc : string) (top_k : Z) : outcome (list ChunkData) :=
  match chunks_of st doc with
  | [] => Ok []
  | _ :: _ =>
      (similarities <- similarities_of st query_embedding
                         (Dict.items (document_chunks st)) doc ;;
       let sorted := sort_desc snd Rgtb similarities in
       chunk_data_of st (map fst (slice_to sorted top_k)))%py
  end.

Definition keyword_search (st : Store) (query doc : string) (top_k : Z)
  : outcome (list ChunkData) :=
  match chunks_of st doc with
  | [] => Ok []
  | _ :: _ =>
      let query_words := set_of (split (lower query)) in
      let chunk_scores := chunk_scores_of st query_words doc in
      let sorted := sort_desc snd nat_gtb chunk_scores in
      chunk_data_of st (map fst (slice_to sorted top_k))
  end.

Definition _retrieve_relevant_chunks (st : Store) (query doc : string) (top_k : Z)
  : outcome (list ChunkData) :=
  if HAS_OPENAI cfg && truthy_opt (OPENAI_API_KEY cfg) then
    (query_embedding <- _generate_embedding_openai query ;;
     if HAS_SUPABASE cfg && supabase_client cfg then
       match supabase_match_document_chunks ext query_embedding doc top_k with
       | Ok data => Ok data
       | Raise _ => vector_search_in_memory st query_embedding doc top_k
       | OutOfFuel => OutOfFuel
       end
     else vector_search_in_memory st query_embedding doc top_k)%py
  else keyword_search st query doc top_k.

End Processor.

(** *** Answer generation *)

Definition system_prompt (context : string) : string :=
  "You are an AI research assistant helping with scientific documents. " ++ nl ++
  "Use ONLY the following context to answer the question. If you don't know the answer based on the context, say so."
  ++ nl ++ "Do not make up information or use your training data." ++ nl ++ nl ++
  "CONTEXT:" ++ nl ++ context.

Definition gemini_system_prompt (context : string) : string :=
  system_prompt context ++ nl ++ nl ++
  "Answer the question based only on the provided context.".

Definition no_answer : string :=
  "I couldn't generate an answer based on the provided context.".

(** [msg["role"] in ["user", "assistant"]], the role kept as it is. *)
Definition chat_roles (history : list Message) : list Message :=
  filter (fun msg => String.eqb (role msg) "user" || String.eqb (role msg) "assistant")
         history.

Definition fallback_order : list string := ["gemini"; "openai"; "claude"; "mistral"].

Section Orchestrator.
Variable cfg : Config.
Variable ext : Services.

Definition _generate_answer_gemini (question context : string)
           (conversation_history : list Message) : outcome string :=
  if negb (HAS_GENAI cfg) || negb (truthy_opt (GEMINI_API_KEY cfg))
  then Raise (ValueError "Gemini API key not available")
  else try_except
         (gemini_generate ext (gemini_system_prompt context) conversation_history question)
         (fun e => Raise (ValueError
            ("Failed to generate response with Gemini: " ++ str_exn e))).

Definition _generate_answer_openai (question context : string)
           (conversation_history : list Message) : outcome string :=
  if negb (HAS_OPENAI cfg) || negb (truthy_opt (OPENAI_API_KEY cfg))
  then Raise (ValueError "OpenAI API key not available")
  else openai_chat_completions_create ext
         ([mkMessage "system" (system_prompt context)] ++ conversation_history
          ++ [mkMessage "user" question]).

Definition _generate_answer_claude (question context : string)
           (conversation_history : list Message) : outcome string :=
  if negb (HAS_ANTHROPIC cfg) || negb (truthy_opt (ANTHROPIC_API_KEY cfg))
  then Raise (ValueError "Claude API key not available")
  else try_except
         (let messages := chat_roles conversation_history ++ [mkMessage "user" question] in
          try_except
            (response <- anthropic_messages_create ext "claude-3-haiku-20240307"
                           (system_prompt context) messages ;;
             match response with
             | Some text => Ok text
             | None => Ok no_answer
             end)%py
            (fun client_error => Raise (ValueError
               ("Failed to generate response with Claude: " ++ str_exn client_error))))
         (fun e => Raise (ValueError
            ("Failed to generate response with Claude: " ++ str_exn e))).

(** The loop over the alternative Mistral models: the first response with
    choices is returned, anything else moves on. *)
Fixpoint mistral_alternatives (messages : list Message) (alt_models : list string)
  : outcome (option string) :=
  match alt_models with
  | [] => Ok None
  | alt_model :: rest =>
      match mistral_chat ext alt_model messages with
      | Ok (Some text) => Ok (Some text)
      | Ok None => mistral_alternatives messages rest
      | Raise _ => mistral_alternatives messages rest
      | OutOfFuel => OutOfFuel
      end
  end.

Definition _generate_answer_mistral (question context : string)
           (conversation_history : list Message) : outcome string :=
  if negb (HAS_MISTRAL cfg) || negb (truthy_opt (MISTRAL_API_KEY cfg))
  then Raise (ValueError "Mistral API key not available")
  else try_except
         (let messages := [mkMessage "system" (system_prompt context)]
                          ++ chat_roles conversation_history
                          ++ [mkMessage "user" question] in
          try_except
            (response <- mistral_chat ext "mistral-small" messages ;;
             match response with
             | Some text => Ok text
             | None => Ok no_answer
             end)%py
            (fun client_error =>
               (alt <- mistral_alternatives messages
                         ["mistral-tiny"; "open-mistral-7b"; "open-mixtral-8x7b"] ;;
                match alt with
                | Some text => Ok text
                | None => Raise (ValueError
                    ("Failed to generate response with any Mistral model: "
                     ++ str_exn client_error))
                end)%py))
         (fun e => Raise (ValueError
            ("Failed to generate response with Mistral: " ++ str_exn e))).

(** *** The orchestrator: [RAGProcessor.answer_question] *)

(** The dict [model_availability]. *)
Definition model_availability : Dict.t bool :=
  [("gemini", HAS_GENAI cfg && truthy_opt (GEMINI_API_KEY cfg));
   ("openai", HAS_OPENAI cfg && truthy_opt (OPENAI_API_KEY cfg));
   ("claude", HAS_ANTHROPIC cfg && truthy_opt (ANTHROPIC_API_KEY cfg));
   ("mistral", false)].

(** [m in model_availability and model_availability[m]] *)
Definition is_available (m : string) : bool :=
  match Dict.get m model_availability with
  | Some b => b
  | None => false
  end.

(** The list [available_models]. *)
Definition available_models (model : string) : list string :=
  (if is_available model then [model] else [])
  ++ filter (fun fallback_model =>
               negb (String.eqb fallback_model model) && is_available fallback_model)
            fallback_order.

(** A stored chunk is a dict with three keys: it is truthy. *)
Definition truthy_chunk (c : Chunk) : bool := true.

(** [chunks[0]] on a stored chunk: its keys are the strings [document_id],
    [chunk_text] and [chunk_index], so the integer subscript raises. *)
Definition chunk_getitem (c : Chunk) (k : nat) : outcome Chunk :=
  Raise (KeyError (str_nat k)).

(** The loop that looks for a sample of the document:
    [for doc_id, chunks in self.document_chunks.items()]. *)
Fixpoint sample_document_text (doc : string) (items : list (string * Chunk))
  : outcome string :=
  match items with
  | [] => Ok ""
  | (doc_id, chunks) :: rest =>
      if String.eqb doc_id doc && truthy_chunk chunks
      then (first <- chunk_getitem chunks 0 ;; Ok (chunk_text first))%py
      else sample_document_text doc rest
  end.

Definition no_relevant_content : string :=
  "No relevant content found in the document to answer this question.".

(** The inner [try] of the branch without relevant chunks. *)
Definition fallback_answer (model question fallback_context : string)
           (history : list Message) : outcome Response :=
  try_except
    (if String.eqb model "gemini" && gemini_ready cfg then
       (answer <- _generate_answer_gemini question fallback_context history ;;
        Ok (FallbackAnswer answer model))%py
     else if String.eqb model "openai" && openai_ready cfg then
       (answer <- _generate_answer_openai question fallback_context history ;;
        Ok (FallbackAnswer answer model))%py
     else if String.eqb model "claude" && claude_ready cfg then
       (answer <- _generate_answer_claude question fallback_context history ;;
        Ok (FallbackAnswer answer model))%py
     else if String.eqb model "mistral" && mistral_ready cfg then
       (answer <- _generate_answer_mistral question fallback_context history ;;
        Ok (FallbackAnswer answer model))%py
     else if negb (String.eqb model "gemini") && gemini_ready cfg then
       (answer <- _generate_answer_gemini question fallback_context history ;;
        Ok (FallbackAnswer answer "gemini"))%py
     else if negb (String.eqb model "openai") && openai_ready cfg then
       (answer <- _generate_answer_openai question fallback_context history ;;
        Ok (FallbackAnswer answer "openai"))%py
     else if negb (String.eqb model "claude") && claude_ready cfg then
       (answer <- _generate_answer_claude question fallback_context history ;;
        Ok (FallbackAnswer answer "claude"))%py
     else if negb (String.eqb model "mistral") && mistral_ready cfg then
       (answer <- _generate_answer_mistral question fallback_context history ;;
        Ok (FallbackAnswer answer "mistral"))%py
     else Ok (ErrorResponse "No AI models available for fallback response."))
    (fun e => Ok (ErrorResponse ("Failed to generate fallback answer: " ++ str_exn e))).

(** The body of the [try] inside the loop over [available_models]: [Some r]
    is a [return r], [None] falls out of the [if]/[elif] chain. *)
Definition attempt (current_model question context : string)
           (processed_history : list Message) (relevant_chunks : list ChunkData)
  : outcome (option Response) :=
  if String.eqb current_model "gemini" then
    (answer <- _generate_answer_gemini question context processed_history ;;
     Ok (Some (AnswerSuccess answer "gemini" relevant_chunks)))%py
  else if String.eqb current_model "openai" then
    (answer <- _generate_answer_openai question context processed_history ;;
     Ok (Some (AnswerSuccess answer "openai" relevant_chunks)))%py
  else if String.eqb current_model "claude" then
    (answer <- _generate_answer_claude question context processed_history ;;
     Ok (Some (AnswerSuccess answer "claude" relevant_chunks)))%py
  else if String.eqb current_model "mistral" then
    (answer <- _generate_answer_mistral question context processed_history ;;
     Ok (Some (AnswerSuccess answer "mistral" relevant_chunks)))%py
  else Ok None.

Definition all_models_failed (last_error : option exn) : string :=
  "Error generating answer with all available models. Last error: "
  ++ str_opt_exn last_error.

(** The loop [for current_model in available_models]. *)
Fixpoint try_models (models : list string) (last_error : option exn)
         (question context : string) (processed_history : list Message)
         (relevant_chunks : list ChunkData) : outcome Response :=
  match models with
  | [] => Ok (ErrorResponse (all_models_failed last_error))
  | current_model :: rest =>
      match attempt current_model question context processed_history relevant_chunks with
      | Ok (Some r) => Ok r
      | Ok None =>
          try_models rest last_error question context processed_history relevant_chunks
      | Raise e =>
          try_models rest (Some e) question context processed_history relevant_chunks
      | OutOfFuel => OutOfFuel
      end
  end.

(** [conversation_history or []]; the copy into [processed_history] is the
    same list. *)
Definition or_empty (conversation_history : option (list Message)) : list Message :=
  match conversation_history with
  | Some h => h
  | None => []
  end.

(** The part of [answer_question] after a non-empty retrieval. *)
Definition generate (model question : string)
           (conversation_history : option (list Message))
           (relevant_chunks : list ChunkData) : outcome Response :=
  let context := join (nl ++ nl) (map (fun c => chunk_text (chunk c)) relevant_chunks) in
  let processed_history := or_empty conversation_history in
  match available_models model with
  | [] => Ok (ErrorResponse "No AI models available for generating responses.")
  | models => try_models models None question context processed_history relevant_chunks
  end.

Definition answer_question (st : Store) (question doc model : string)
           (conversation_history : option (list Message)) : outcome Response :=
  try_except
    (relevant_chunks <- _retrieve_relevant_chunks cfg ext st question doc 3 ;;
     match relevant_chunks with
     | [] =>
         (document_text <- sample_document_text doc (Dict.items (document_chunks st)) ;;
          if negb (truthy_str document_text)
          then Ok (ErrorResponse no_relevant_content)
          else
            let fallback_context :=
              ("Document sample: " ++ take 500 document_text ++ "...")%string in
            fallback_answer model question fallback_context
                            (or_empty conversation_history))
     | _ :: _ => generate model question conversation_history relevant_chunks
     end)%py
    (fun e => Ok (ErrorResponse (str_exn e))).

End Orchestrator.

(** *** Vocabulary of the properties *)

(** The provider binding that the [if]/[elif] chain of the loop over
    [available_models] selects for a provider name; no binding for any other
    name. *)
Definition call_provider (cfg : Config) (ext : Services) (p question context : string)
           (history : list Message) : option (outcome string) :=
  if String.eqb p "gemini" then Some (_generate_answer_gemini cfg ext question context history)
  else if String.eqb p "openai" then Some (_generate_answer_openai cfg ext question context history)
  else if String.eqb p "claude" then Some (_generate_answer_claude cfg ext question context history)
  else if String.eqb p "mistral" then Some (_generate_answer_mistral cfg ext question context history)
  else None.

(** The grounding context built from the retrieved chunks. *)
Definition context_of (relevant_chunks : list ChunkData) : string :=
  join (nl ++ nl) (map (fun c => chunk_text (chunk c)) relevant_chunks).

(** A call that comes back, with a value or with an exception. *)
Definition returns {A : Type} (o : outcome A) : Prop := o <> OutOfFuel.

(** A call whose exceptions, if any, print as a non-empty message. *)
Definition speaks {A : Type} (o : outcome A) : Prop :=
  forall e, o = Raise e -> str_exn e <> "".

(** Every vendor call satisfies [P]. *)
Definition services_all (P : forall A : Type, outcome A -> Prop) (ext : Services) : Prop :=
  (forall t, P _ (openai_embeddings_create ext t)) /\
  (forall i d t e, P _ (supabase_insert ext i d t e)) /\
  (forall q d k, P _ (supabase_match_document_chunks ext q d k)) /\
  (forall s h q, P _ (gemini_generate ext s h q)) /\
  (forall m, P _ (openai_chat_completions_create ext m)) /\
  (forall n s m, P _ (anthropic_messages_create ext n s m)) /\
  (forall n m, P _ (mistral_chat ext n m)).

(** The assignments to [document_chunks] that ingesting the enumerated chunks
    [items] of document [doc] performs. *)
Definition chunk_writes (doc : string) (items : list (nat * string)) : list (string * Chunk) :=
  map (fun ic => (chunk_id_of doc (fst ic), mkChunk doc (snd ic) (fst ic))) items.

(** The chunk ids of the enumerated chunks [items]. *)
Definition ids_of (doc : string) (items : list (nat * string)) : list string :=
  map (fun ic => chunk_id_of doc (fst ic)) items.

(** The embeddings that the provider returns for the chunks, one by one. *)
Definition embedded (cfg : Config) (ext : Services)
           (items : list (nat * string)) (embs : list vector) : Prop :=
  Forall2 (fun ic e => _generate_embedding_openai cfg ext (snd ic) = Ok e) items embs.



(** The chunk stored under an id. *)
Definition lookup_chunk (st : Store) (chunk_id : string) : Chunk :=
  match Dict.get chunk_id (document_chunks st) with
  | Some c => c
  | None => mkChunk "" "" 0
  end.




(** No chunk of the document is in the in-memory store. *)
Definition no_chunks (st : Store) (doc : string) : Prop :=
  forall chunk_id c, In (chunk_id, c) (document_chunks st) -> document_id c <> doc.

(** *** Words *)

(** No character of the string is whitespace. *)
Fixpoint no_space (s : string) : bool :=
  match s with
  | EmptyString => true
  | String c rest => negb (isspace c) && no_space rest
  end.

(** What [str.split()] returns: non-empty strings without whitespace. *)
Definition is_word (w : string) : bool := truthy_str w && no_space w.

(** The words of the window that starts at word [off]. *)
Definition window_words (words : list string) (chunk_size off : Z) : list string :=
  firstn (Z.to_nat chunk_size) (skipn (Z.to_nat off) words).

(** *** The callers: [app/rag_api.py] and [app/main.py] *)

(** What an endpoint of the RAG API sends back: the JSON body of a returned
    dict, or the response that FastAPI builds from a raised [HTTPException]. *)
Inductive HttpResult : Type :=
| Http200 (body : Response)
| HttpError (status_code : nat) (detail : string).

Section Callers.
Variable cfg : Config.
Variable ext : Services.
(** [str(e)] of an [HTTPException(status_code, detail)], which the version of
    Starlette in use decides. *)
Variable str_http_exception : nat -> string -> string.

(** [rag_api.process_document]: the endpoint [POST /process-document]. *)
Definition api_process_document (fuel : nat) (doc document_text : string)
           (chunk_size chunk_overlap : Z) (st : Store) : outcome HttpResult * Store :=
  match process_document cfg ext fuel doc document_text chunk_size chunk_overlap st with
  | (Ok result, st') => (Ok (Http200 result), st')
  | (Raise e, st') => (Ok (HttpError 500 (str_exn e)), st')
  | (OutOfFuel, st') => (OutOfFuel, st')
  end.

(** [rag_api.answer_question]: the endpoint [POST /answer-question]. *)
Definition api_answer_question (st : Store) (question doc model : string)
           (conversation_history : option (list Message)) : outcome HttpResult :=
  match answer_question cfg ext st question doc model conversation_history with
  | Ok result => Ok (Http200 result)
  | Raise e => Ok (HttpError 500 (str_exn e))
  | OutOfFuel => OutOfFuel
  end.

(** The loop of [rag_api.chat] over [enumerate(request.messages)]: the last
    message, if it is a user message, is the question; every other message
    goes to the history. *)
Fixpoint chat_split_from (i : nat) (len : nat) (messages : list Message)
         (conversation_history : list Message) (user_question : string)
  : list Message * string :=
  match messages with
  | [] => (conversation_history, user_question)
  | message :: rest =>
      if (Z.of_nat i =? Z.of_nat len - 1)%Z && String.eqb (role message) "user"
      then chat_split_from (S i) len rest conversation_history (content message)
      else chat_split_from (S i) len rest
             (conversation_history ++ [mkMessage (role message) (content message)])
             user_question
  end.

Definition chat_split (messages : list Message) : list Message * string :=
  chat_split_from 0 (List.length messages) messages [] "".

(** [rag_api.chat]: the endpoint [POST /chat].  The [HTTPException] with
    status 400 is raised inside the [try] and caught by its
    [except Exception]. *)
Definition api_chat (st : Store) (doc : string) (messages : list Message) (model : string)
  : outcome HttpResult :=
  let (conversation_history, user_question) := chat_split messages in
  if negb (truthy_str user_question)
  then Ok (HttpError 500
             (str_http_exception 400 "No user question found in the conversation"))
  else
    match answer_question cfg ext st user_question doc model (Some conversation_history) with
    | Ok result => Ok (Http200 result)
    | Raise e => Ok (HttpError 500 (str_exn e))
    | OutOfFuel => OutOfFuel
    end.

(** [main.py]: [process_document_for_rag] and [answer_question_with_rag]. *)
Definition process_document_for_rag (fuel : nat) (doc document_text : string)
           (chunk_size chunk_overlap : Z) : M Response :=
  mtry (process_document cfg ext fuel doc document_text chunk_size chunk_overlap)
       (fun e => mret (ErrorResponse (str_exn e))).

Definition answer_question_with_rag (st : Store) (question doc model : string)
           (conversation_history : option (list Message)) : outcome Response :=
  try_except (answer_question cfg ext st question doc model conversation_history)
             (fun e => Ok (ErrorResponse (str_exn e))).

End Callers.

(** *** Configurations and services used in the examples *)

Definition keyword_cfg : Config :=
  mkConfig false None false None false None false None false false.

Definition openai_cfg : Config :=
  mkConfig true (Some "sk-test") false None false None false None false false.

Definition gemini_cfg : Config :=
  mkConfig false None true (Some "g-test") false None false None false false.

Definition mistral_cfg : Config :=
  mkConfig false None false None false None true (Some "m-test") false false.

(** Every vendor call raises [e]. *)
Definition failing (e : exn) : Services :=
  {| openai_embeddings_create := fun _ => Raise e;
     supabase_insert := fun _ _ _ _ => Raise e;
     supabase_match_document_chunks := fun _ _ _ => Raise e;
     gemini_generate := fun _ _ _ => Raise e;
     openai_chat_completions_create := fun _ => Raise e;
     anthropic_messages_create := fun _ _ _ => Raise e;
     mistral_chat := fun _ _ => Raise e |}.

(** Every vendor call answers: a one-dimensional embedding, fixed texts. *)
Definition answering : Services :=
  {| openai_embeddings_create := fun _ => Ok [1%R];
     supabase_insert := fun _ _ _ _ => Ok tt;
     supabase_match_document_chunks := fun _ _ _ => Ok [];
     gemini_generate := fun _ _ _ => Ok "gemini says";
     openai_chat_completions_create := fun _ => Ok "openai says";
     anthropic_messages_create := fun _ _ _ => Ok (Some "claude says");
     mistral_chat := fun _ _ => Ok (Some "mistral says") |}.

(** The embedding call fails with a rate limit on the text [c d] and answers
    for every other text. *)
Definition rate_limited : Services :=
  {| openai_embeddings_create :=
       fun t => if String.eqb t "c d" then Raise (ExternalError "rate limit")
                else Ok [1%R];
     supabase_insert := fun _ _ _ _ => Ok tt;
     supabase_match_document_chunks := fun _ _ _ => Raise (ExternalError "rpc down");
     gemini_generate := fun _ _ _ => Ok "gemini says";
     openai_chat_completions_create := fun _ => Ok "openai says";
     anthropic_messages_create := fun _ _ _ => Raise (ExternalError "overloaded");
     mistral_chat :=
       fun m _ => if String.eqb m "open-mistral-7b" then Ok (Some "mistral 7b says")
                  else Raise (ExternalError "no such model") |}.

Definition supabase_cfg : Config :=
  mkConfig true (Some "sk-test") false None false None false None true true.

Definition all_cfg : Config :=
  mkConfig true (Some "sk-test") true (Some "g-test") true (Some "a-test")
           true (Some "m-test") false false.

(** The same services, but the embedding call returns another vector. *)
Definition answering_other : Services :=
  {| openai_embeddings_create := fun _ => Ok [2%R];
     supabase_insert := fun _ _ _ _ => Ok tt;
     supabase_match_document_chunks := fun _ _ _ => Ok [];
     gemini_generate := fun _ _ _ => Ok "gemini says";
     openai_chat_completions_create := fun _ => Ok "openai says";
     anthropic_messages_create := fun _ _ _ => Ok (Some "claude says");
     mistral_chat := fun _ _ => Ok (Some "mistral says") |}.


(** One chunk of document [d] without an embedding. *)
Definition one_chunk_store : Store :=
  {| document_chunks := [(chunk_id_of "d" 0, mkChunk "d" "hello world" 0)];
     document_embeddings := [] |}.

(* ================================================================== *)
(** ** Part II: properties *)

(** *** Lists and slices *)

Lemma firstn_skipn_short {A : Type} (l : list A) (a k : nat) :
  List.length l <= a + k -> firstn (List.length l - a) (skipn a l) = firstn k (skipn a l).
Proof.
  intros Hlen.
  assert (Hs : List.length (skipn a l) = List.length l - a) by apply length_skipn.
  rewrite <- Hs, firstn_all.
  symmetry. apply firstn_all2. lia.
Qed.

(** A slice with non-negative bounds is a [firstn] of a [skipn]. *)
Lemma slice_window {A : Type} (l : list A) (lo size : Z) :
  (0 <= lo)%Z -> (0 <= size)%Z ->
  slice l lo (lo + size) = firstn (Z.to_nat size) (skipn (Z.to_nat lo) l).
Proof.
  intros Hlo Hsize. unfold slice, slice_bound.
  destruct (Z.ltb_spec lo 0) as [?|_]; [lia|].
  destruct (Z.ltb_spec (lo + size) 0) as [?|_]; [lia|].
  set (n := List.length l).
  destruct (Nat.le_gt_cases n (Z.to_nat lo)) as [Hge|Hlt].
  - rewrite (Nat.min_r (Z.to_nat lo) n) by exact Hge.
    rewrite (Nat.min_r (Z.to_nat (lo + size)) n) by lia.
    rewrite Nat.sub_diag. simpl.
    rewrite (skipn_all2 l) by (fold n; lia).
    now rewrite firstn_nil.
  - rewrite (Nat.min_l (Z.to_nat lo) n) by lia.
    destruct (Nat.le_gt_cases (Z.to_nat (lo + size)) n) as [Hin|Hout].
    + rewrite (Nat.min_l _ n) by exact Hin.
      f_equal. lia.
    + rewrite (Nat.min_r _ n) by lia.
      unfold n. apply firstn_skipn_short. fold n. lia.
Qed.

Lemma slice_to_prefix {A : Type} (l : list A) (hi : Z) :
  exists rest, l = slice_to l hi ++ rest.
Proof.
  unfold slice_to. exists (skipn (slice_bound (List.length l) hi) l).
  symmetry. apply firstn_skipn.
Qed.

(** *** The chunker *)

Lemma chunk_loop_never_raises (fuel : nat) (words : list string) (i size overlap : Z) (e : exn) :
  chunk_loop fuel words i size overlap <> Raise e.
Proof.
  revert i. induction fuel as [|fuel IH]; intros i; simpl.
  - discriminate.
  - destruct (i <? Z.of_nat (List.length words))%Z; [|discriminate].
    specialize (IH (i + (size - overlap))%Z).
    destruct (chunk_loop fuel words (i + (size - overlap)) size overlap);
      simpl; congruence.
Qed.

Lemma chunk_document_never_raises_aux (fuel : nat) (text : string) (size overlap : Z) (e : exn) :
  _chunk_document fuel text size overlap <> Raise e.
Proof.
  unfold _chunk_document.
  destruct (Z.of_nat (List.length (split text)) <=? size)%Z.
  - discriminate.
  - apply chunk_loop_never_raises.
Qed.

(** With a step that is not positive the loop never leaves the text. *)
Lemma chunk_loop_no_progress (fuel : nat) (words : list string) (i size overlap : Z) :
  (size <= overlap)%Z -> (i < Z.of_nat (List.length words))%Z ->
  chunk_loop fuel words i size overlap = OutOfFuel.
Proof.
  intros Hstep. revert i. induction fuel as [|fuel IH]; intros i Hi; simpl.
  - reflexivity.
  - destruct (Z.ltb_spec i (Z.of_nat (List.length words))) as [_|?]; [|lia].
    rewrite IH by lia. reflexivity.
Qed.

(** The loop started at [i] with [m] windows left produces exactly these. *)
Lemma chunk_loop_windows (words : list string) (size overlap : Z) (m : nat) :
  (0 <= size)%Z -> (0 < size - overlap)%Z ->
  forall (fuel : nat) (i : Z),
    m < fuel -> (0 <= i)%Z ->
    (Z.of_nat (List.length words) <= i + Z.of_nat m * (size - overlap))%Z ->
    (m = 0 \/ (i + (Z.of_nat m - 1) * (size - overlap) < Z.of_nat (List.length words))%Z) ->
    chunk_loop fuel words i size overlap =
    Ok (map (fun k => window words size (i + Z.of_nat k * (size - overlap))%Z) (seq 0 m)).
Proof.
  intros Hsize Hstep. induction m as [|m IH]; intros fuel i Hfuel Hi Hupper Hlower.
  - destruct fuel as [|fuel]; [lia|]. simpl.
    destruct (Z.ltb_spec i (Z.of_nat (List.length words))) as [?|_]; [lia|reflexivity].
  - destruct fuel as [|fuel]; [lia|].
    assert (Hin : (i < Z.of_nat (List.length words))%Z).
    { destruct Hlower as [?|Hlower]; [discriminate|]. nia. }
    cbn [chunk_loop].
    destruct (Z.ltb_spec i (Z.of_nat (List.length words))) as [_|?]; [|lia].
    rewrite (IH fuel (i + (size - overlap))%Z); [| lia | lia | lia |].
    + cbn [bind seq map]. f_equal. f_equal.
      * unfold window. rewrite slice_window by lia.
        do 3 f_equal. lia.
      * rewrite <- seq_shift, map_map. apply map_ext.
        intros k. f_equal. lia.
    + destruct m as [|m]; [now left|right]. lia.
Qed.

Lemma window_count_bounds (n : nat) (step : Z) :
  (0 < step)%Z ->
  let m := Z.to_nat ((Z.of_nat n + step - 1) / step) in
  (Z.of_nat n <= Z.of_nat m * step)%Z /\
  (m = 0 \/ ((Z.of_nat m - 1) * step < Z.of_nat n)%Z) /\
  m <= n.
Proof.
  intros Hstep m.
  assert (Hq : (0 <= (Z.of_nat n + step - 1) / step)%Z)
    by (apply Z.div_pos; lia).
  assert (Hm : Z.of_nat m = ((Z.of_nat n + step - 1) / step)%Z)
    by (unfold m; lia).
  pose proof (Z.div_mod (Z.of_nat n + step - 1) step ltac:(lia)) as Hdm.
  pose proof (Z.mod_pos_bound (Z.of_nat n + step - 1) step Hstep) as Hmod.
  rewrite <- Hm in Hdm.
  repeat split.
  - nia.
  - right. nia.
  - nia.
Qed.

(** The offsets are the multiples of the step below the word count. *)
Lemma window_offsets_spec (n : nat) (step off : Z) :
  (0 < step)%Z ->
  In off (window_offsets n step) <->
  exists k : nat, off = (Z.of_nat k * step)%Z /\ (off < Z.of_nat n)%Z.
Proof.
  intros Hstep. unfold window_offsets.
  destruct (window_count_bounds n step Hstep) as (Hup & Hlow & _).
  set (m := Z.to_nat ((Z.of_nat n + step - 1) / step)) in *.
  rewrite in_map_iff. split.
  - intros (k & <- & Hk). apply in_seq in Hk. exists k. split; [reflexivity|].
    destruct Hlow as [?|Hlow]; [lia|]. nia.
  - intros (k & -> & Hk). exists k. split; [reflexivity|].
    apply in_seq. split; [lia|]. simpl.
    destruct (Nat.lt_ge_cases k m) as [?|Hge]; [assumption|]. nia.
Qed.

Lemma chunk_document_short (fuel : nat) (text : string) (size overlap : Z) :
  (Z.of_nat (List.length (split text)) <= size)%Z ->
  _chunk_document fuel text size overlap = Ok [text].
Proof.
  intros Hshort. unfold _chunk_document.
  destruct (Z.leb_spec (Z.of_nat (List.length (split text))) size); [reflexivity|lia].
Qed.

Lemma chunk_document_long (fuel : nat) (text : string) (size overlap : Z) :
  (0 <= overlap < size)%Z ->
  (size < Z.of_nat (List.length (split text)))%Z ->
  List.length (split text) < fuel ->
  _chunk_document fuel text size overlap =
  Ok (map (window (split text) size)
          (window_offsets (List.length (split text)) (size - overlap))).
Proof.
  intros Hcfg Hlong Hfuel. unfold _chunk_document.
  destruct (Z.leb_spec (Z.of_nat (List.length (split text))) size); [lia|].
  destruct (window_count_bounds (List.length (split text)) (size - overlap))
    as (Hup & Hlow & Hm); [lia|].
  unfold window_offsets. rewrite map_map.
  rewrite (chunk_loop_windows (split text) size overlap
             (Z.to_nat ((Z.of_nat (List.length (split text)) + (size - overlap) - 1)
                        / (size - overlap)))); try lia.
  reflexivity.
Qed.

(** C5.  With [0 < chunk_overlap < chunk_size]: a text of at most
    [chunk_size] whitespace-delimited words is returned as the single chunk
    equal to the text; a longer text is cut into the windows of [chunk_size]
    words starting at the word offsets [0, step, 2*step, ...] below the word
    count, where [step = chunk_size - chunk_overlap], and the loop terminates
    (any fuel above the word count is enough).  For 500/100 and 1200 words the
    windows start at 0, 400 and 800. *)
Theorem chunk_document_windows (text : string) (chunk_size chunk_overlap : Z) :
  (0 < chunk_overlap < chunk_size)%Z ->
  let words := split text in
  (Z.of_nat (List.length words) <= chunk_size ->
   forall fuel, _chunk_document fuel text chunk_size chunk_overlap = Ok [text])%Z
  /\
  ((chunk_size < Z.of_nat (List.length words))%Z ->
   forall fuel, List.length words < fuel ->
     _chunk_document fuel text chunk_size chunk_overlap =
     Ok (map (window words chunk_size)
             (window_offsets (List.length words) (chunk_size - chunk_overlap))))
  /\
  (chunk_size = 500%Z -> chunk_overlap = 100%Z -> List.length words = 1200 ->
   forall fuel, 1200 < fuel ->
     _chunk_document fuel text chunk_size chunk_overlap =
     Ok [window words 500 0; window words 500 400; window words 500 800]).
Proof.
  intros Hcfg words. repeat split.
  - intros Hshort fuel. now apply chunk_document_short.
  - intros Hlong fuel Hfuel. apply chunk_document_long; [lia|assumption|assumption].
  - intros -> -> Hlen fuel Hfuel.
    rewrite chunk_document_long; fold words; rewrite ?Hlen; try lia.
    reflexivity.
Qed.

Lemma chunk_document_windows_witness :
  _chunk_document 8 "a b c d e f g" 3 1 = Ok ["a b c"; "c d e"; "e f g"; "g"].
Proof.
  destruct (chunk_document_windows "a b c d e f g" 3 1) as (_ & Hlong & _).
  - lia.
  - rewrite Hlong.
    + reflexivity.
    + simpl. lia.
    + simpl. lia.
Defined.

(** C2, as the code has it.  With [chunk_overlap >= chunk_size] the chunker
    raises nothing: there is no check of the configuration.  A text of at most
    [chunk_size] words still comes back as the single chunk equal to the
    text. *)
Theorem chunk_document_overlap_not_rejected (text : string) (chunk_size chunk_overlap : Z) :
  (chunk_size <= chunk_overlap)%Z ->
  (forall fuel e, _chunk_document fuel text chunk_size chunk_overlap <> Raise e) /\
  ((Z.of_nat (List.length (split text)) <= chunk_size)%Z ->
   forall fuel, _chunk_document fuel text chunk_size chunk_overlap = Ok [text]).
Proof.
  intros _. split.
  - intros fuel e. unfold _chunk_document.
    destruct (Z.of_nat (List.length (split text)) <=? chunk_size)%Z.
    + discriminate.
    + apply chunk_loop_never_raises.
  - intros Hshort fuel. now apply chunk_document_short.
Qed.

Lemma chunk_document_overlap_not_rejected_witness :
  _chunk_document 0 "one two" 2 5 = Ok ["one two"].
Proof.
  destruct (chunk_document_overlap_not_rejected "one two" 2 5) as (_ & Hshort).
  - lia.
  - apply Hshort. simpl. lia.
Defined.

(** The input of C2 on which nothing is rejected: overlap equal to the size,
    one word. *)
Lemma chunk_document_overlap_counterexample :
  (1 <= 1)%Z /\ _chunk_document 0 "a" 1 1 = Ok ["a"].
Proof.
  split; [lia|reflexivity].
Qed.

(** With [chunk_overlap >= chunk_size >= 0] and more than [chunk_size] words
    the loop does not return, whatever the fuel. *)
Lemma chunk_document_overlap_no_return (fuel : nat) (text : string) (size overlap : Z) :
  (0 <= size <= overlap)%Z ->
  (size < Z.of_nat (List.length (split text)))%Z ->
  _chunk_document fuel text size overlap = OutOfFuel.
Proof.
  intros Hcfg Hlong. unfold _chunk_document.
  destruct (Z.leb_spec (Z.of_nat (List.length (split text))) size); [lia|].
  apply chunk_loop_no_progress; lia.
Qed.

(** *** Cosine similarity *)

Section Cosine.
Local Open Scope R_scope.

Lemma dot_product_self_nonneg (v : vector) : 0 <= dot_product v v.
Proof.
  induction v as [|x v IH]; simpl.
  - lra.
  - pose proof (Rle_0_sqr x) as Hx. unfold Rsqr in Hx. lra.
Qed.

Lemma dot_product_zero_r (v w : vector) :
  Forall (fun x => x = 0) w -> dot_product v w = 0.
Proof.
  intros Hw. revert v. induction Hw as [|y w Hy _ IH]; intros [|x v]; simpl; try reflexivity.
  rewrite IH, Hy. ring.
Qed.

Lemma dot_product_self_zero (v : vector) :
  dot_product v v = 0 <-> Forall (fun x => x = 0) v.
Proof.
  split.
  - induction v as [|x v IH]; simpl; intros Hdot; constructor.
    + pose proof (dot_product_self_nonneg v). nra.
    + apply IH. pose proof (dot_product_self_nonneg v). nra.
  - intros Hv. now apply dot_product_zero_r.
Qed.

Lemma norm_zero (v : vector) : norm v = 0 <-> Forall (fun x => x = 0) v.
Proof.
  unfold norm. rewrite <- dot_product_self_zero. split.
  - intros Hs. apply sqrt_eq_0; [apply dot_product_self_nonneg|assumption].
  - intros ->. apply sqrt_0.
Qed.

Lemma norm_nonzero (v : vector) : (exists x, In x v /\ x <> 0) -> norm v <> 0.
Proof.
  intros (x & Hin & Hx) Hnorm. apply norm_zero in Hnorm.
  rewrite Forall_forall in Hnorm. now apply Hx, Hnorm.
Qed.

Lemma is_zero_true (x : R) : is_zero x = true <-> x = 0.
Proof. unfold is_zero. destruct (Req_dec_T x 0); split; congruence. Qed.

Lemma is_zero_false (x : R) : is_zero x = false <-> x <> 0.
Proof. unfold is_zero. destruct (Req_dec_T x 0); split; congruence. Qed.

Lemma cosine_similarity_self (v : vector) :
  norm v <> 0 -> _cosine_similarity v v = Ok 1.
Proof.
  intros Hnorm. unfold _cosine_similarity, np_dot.
  rewrite Nat.eqb_refl. cbn [bind].
  apply is_zero_false in Hnorm as Hz. rewrite Hz. cbn [orb].
  f_equal. unfold norm in *.
  rewrite sqrt_sqrt by apply dot_product_self_nonneg.
  apply Rdiv_diag. intros Hdot. apply Hnorm. rewrite Hdot. apply sqrt_0.
Qed.

Lemma cosine_similarity_zero_norm (v w : vector) :
  List.length v = List.length w -> norm v = 0 \/ norm w = 0 ->
  _cosine_similarity v w = Ok 0.
Proof.
  intros Hlen Hzero. unfold _cosine_similarity, np_dot.
  rewrite Hlen, Nat.eqb_refl. cbn [bind].
  destruct Hzero as [Hz|Hz]; apply is_zero_true in Hz; rewrite Hz.
  - reflexivity.
  - now rewrite orb_true_r.
Qed.

(** C8.  Over exact arithmetic the cosine similarity of a non-zero vector
    with itself is 1, and the similarity of two vectors of the same
    dimension is 0 as soon as one of them has norm 0, which is the case
    exactly for the zero vector. *)
Theorem cosine_similarity_self_and_zero (v w : vector) :
  ((exists x, In x v /\ x <> 0) -> _cosine_similarity v v = Ok 1) /\
  (List.length v = List.length w -> norm v = 0 \/ norm w = 0 ->
   _cosine_similarity v w = Ok 0) /\
  (norm w = 0 <-> Forall (fun x => x = 0) w).
Proof.
  repeat split.
  - intros Hv. apply cosine_similarity_self. now apply norm_nonzero.
  - apply cosine_similarity_zero_norm.
  - apply norm_zero.
  - apply norm_zero.
Qed.

Lemma cosine_similarity_self_and_zero_witness :
  _cosine_similarity [3; 4] [3; 4] = Ok 1 /\
  _cosine_similarity [3; 4] [0; 0] = Ok 0.
Proof.
  destruct (cosine_similarity_self_and_zero [3; 4] [0; 0]) as (Hself & Hzero & Hnorm).
  split.
  - apply Hself. exists 3. split; [now left|lra].
  - apply Hzero; [reflexivity|].
    right. apply Hnorm. repeat constructor.
Defined.
End Cosine.

(** *** Retrieval on a document without chunks *)

Lemma chunks_of_none (st : Store) (doc : string) :
  no_chunks st doc -> chunks_of st doc = [].
Proof.
  unfold no_chunks, chunks_of, Dict.items.
  induction (document_chunks st) as [|[chunk_id c] items IH]; intros Hnone; simpl.
  - reflexivity.
  - destruct (String.eqb_spec (document_id c) doc) as [Heq|_].
    + exfalso. apply (Hnone chunk_id c); [now left|exact Heq].
    + apply IH. intros k c' Hin. apply (Hnone k c'). now right.
Qed.

Lemma chunks_of_some (st : Store) (doc : string) (chunk_id : string) (c : Chunk) :
  In (chunk_id, c) (document_chunks st) -> document_id c = doc ->
  chunks_of st doc <> [].
Proof.
  intros Hin Hdoc Hnil.
  assert (Hf : In (chunk_id, c) (chunks_of st doc)).
  { unfold chunks_of, Dict.items. apply filter_In. split; [exact Hin|].
    simpl. now apply String.eqb_eq. }
  rewrite Hnil in Hf. exact Hf.
Qed.

Lemma generate_embedding_openai_ready (cfg : Config) (ext : Services) (text : string) :
  openai_ready cfg = true ->
  _generate_embedding_openai cfg ext text = openai_embeddings_create ext text.
Proof.
  unfold openai_ready, _generate_embedding_openai. intros Hready.
  apply andb_prop in Hready as [-> ->]. reflexivity.
Qed.

(** C7, as the code has it.  Without a durable backend and with no chunk of
    the document in the store, retrieval returns the empty sequence: always in
    keyword mode, and in vector mode whenever the embedding of the query comes
    back (the query is embedded before the store is looked at). *)
Theorem retrieve_no_chunks (cfg : Config) (ext : Services) (st : Store)
        (query doc : string) (top_k : Z) :
  supabase_ready cfg = false ->
  no_chunks st doc ->
  (openai_ready cfg = false ->
   _retrieve_relevant_chunks cfg ext st query doc top_k = Ok []) /\
  (openai_ready cfg = true ->
   forall query_embedding, openai_embeddings_create ext query = Ok query_embedding ->
   _retrieve_relevant_chunks cfg ext st query doc top_k = Ok []).
Proof.
  intros Hmem Hstored. pose proof (chunks_of_none st doc Hstored) as Hnone.
  unfold _retrieve_relevant_chunks. fold (openai_ready cfg). fold (supabase_ready cfg).
  rewrite Hmem. split.
  - intros ->. unfold keyword_search. now rewrite Hnone.
  - intros Hready qe Hqe. rewrite Hready.
    rewrite generate_embedding_openai_ready, Hqe by exact Hready.
    cbn [bind]. unfold vector_search_in_memory. now rewrite Hnone.
Qed.

Lemma retrieve_no_chunks_witness :
  _retrieve_relevant_chunks openai_cfg answering init "what" "d" 3 = Ok [].
Proof.
  destruct (retrieve_no_chunks openai_cfg answering init "what" "d" 3) as (_ & Hvec).
  - reflexivity.
  - intros chunk_id c Hin. destruct Hin.
  - apply (Hvec eq_refl [1%R]). reflexivity.
Defined.

(** The input of C7 on which retrieval raises: vector mode, an empty store,
    and an embedding call that fails. *)
Lemma retrieve_no_chunks_counterexample :
  no_chunks init "d" /\
  _retrieve_relevant_chunks openai_cfg (failing (ExternalError "timeout")) init "what" "d" 3
  = Raise (ExternalError "timeout").
Proof.
  split.
  - intros chunk_id c Hin. destruct Hin.
  - reflexivity.
Qed.

(** *** The branch without relevant chunks *)

(** The sample loop compares the keys of the store, which are chunk ids, with
    the document id, and subscripts the chunk it finds with [0]: it yields the
    empty text or raises [KeyError(0)], never a sample. *)
Lemma sample_document_text_cases (doc : string) (items : list (string * Chunk)) :
  sample_document_text doc items = Ok "" \/
  sample_document_text doc items = Raise (KeyError "0").
Proof.
  induction items as [|[doc_id chunks] items IH]; simpl.
  - now left.
  - destruct (String.eqb doc_id doc); simpl.
    + now right.
    + exact IH.
Qed.

Lemma attempt_not_fallback (cfg : Config) (ext : Services) (p question context : string)
      (history : list Message) (chunks : list ChunkData) (r : Response) :
  attempt cfg ext p question context history chunks = Ok (Some r) ->
  exists answer, r = AnswerSuccess answer p chunks.
Proof.
  unfold attempt.
  destruct (String.eqb_spec p "gemini") as [->|_];
    [|destruct (String.eqb_spec p "openai") as [->|_];
      [|destruct (String.eqb_spec p "claude") as [->|_];
        [|destruct (String.eqb_spec p "mistral") as [->|_]]]].
  5: discriminate.
  all: match goal with |- context [bind ?m _] => destruct m as [answer| |] end;
    cbn [bind]; intros H; inversion H; now exists answer.
Qed.

Lemma try_models_shape (cfg : Config) (ext : Services) (models : list string)
      (last_error : option exn) (question context : string) (history : list Message)
      (chunks : list ChunkData) (r : Response) :
  try_models cfg ext models last_error question context history chunks = Ok r ->
  (exists msg, r = ErrorResponse msg) \/
  (exists answer p, r = AnswerSuccess answer p chunks).
Proof.
  revert last_error. induction models as [|p models IH]; intros last_error; simpl.
  - intros H. inversion H. left. eauto.
  - destruct (attempt cfg ext p question context history chunks) as [[r'|]|e|] eqn:Ha.
    + intros H. inversion H; subst r'.
      apply attempt_not_fallback in Ha as [answer ->]. right. eauto.
    + apply IH.
    + apply IH.
    + discriminate.
Qed.

Lemma generate_shape (cfg : Config) (ext : Services) (model question : string)
      (history : option (list Message)) (chunks : list ChunkData) (r : Response) :
  generate cfg ext model question history chunks = Ok r ->
  (exists msg, r = ErrorResponse msg) \/
  (exists answer p, r = AnswerSuccess answer p chunks).
Proof.
  unfold generate. destruct (available_models cfg model) as [|p models].
  - intros H. inversion H. left. eauto.
  - apply try_models_shape.
Qed.

(** The fallback answer is dead code: whatever the store, the services and the
    question, [answer_question] never returns the response tagged
    [fallback: True]. *)
Lemma answer_question_never_fallback (cfg : Config) (ext : Services) (st : Store)
      (question doc model : string) (history : option (list Message)) (r : Response) :
  answer_question cfg ext st question doc model history = Ok r ->
  fallback r = None.
Proof.
  unfold answer_question.
  destruct (_retrieve_relevant_chunks cfg ext st question doc 3) as [[|c chunks]|e|];
    cbn [bind try_except].
  - destruct (sample_document_text_cases doc (Dict.items (document_chunks st)))
      as [-> | ->]; cbn; intros H; inversion H; reflexivity.
  - destruct (generate cfg ext model question history (c :: chunks)) as [r'|e|] eqn:Hg;
      cbn; intros H; inversion H; subst; try reflexivity.
    apply generate_shape in Hg as [[msg ->]|(answer & p & ->)]; reflexivity.
  - intros H; inversion H. reflexivity.
  - discriminate.
Qed.


(** *** The provider chain *)

Section Chain.
Variable cfg : Config.
Variable ext : Services.
Variables question context : string.
Variable history : list Message.
Variable chunks : list ChunkData.

(** The body of the loop is the selected binding followed by the success
    response that names the provider. *)
Lemma attempt_call (p : string) (o : outcome string) :
  call_provider cfg ext p question context history = Some o ->
  attempt cfg ext p question context history chunks =
  (answer <- o ;; Ok (Some (AnswerSuccess answer p chunks)))%py.
Proof.
  unfold call_provider, attempt.
  destruct (String.eqb_spec p "gemini") as [->|_];
    [|destruct (String.eqb_spec p "openai") as [->|_];
      [|destruct (String.eqb_spec p "claude") as [->|_];
        [|destruct (String.eqb_spec p "mistral") as [->|_]]]];
    intros H; inversion H; reflexivity.
Qed.

Lemma try_models_first_success (failed : list string) (p : string) (rest : list string)
      (answer : string) (last_error : option exn) :
  (forall q, In q failed ->
     exists e, call_provider cfg ext q question context history = Some (Raise e)) ->
  call_provider cfg ext p question context history = Some (Ok answer) ->
  try_models cfg ext (failed ++ p :: rest) last_error question context history chunks
  = Ok (AnswerSuccess answer p chunks).
Proof.
  intros Hfailed Hp. revert last_error.
  induction failed as [|q failed IH]; intros last_error; simpl.
  - now rewrite (attempt_call p _ Hp).
  - destruct (Hfailed q (or_introl eq_refl)) as [e He].
    rewrite (attempt_call q _ He). cbn [bind].
    apply IH. intros q' Hin. apply Hfailed. now right.
Qed.

Lemma try_models_all_failed (failed : list string) (last : string) (e : exn)
      (last_error : option exn) :
  (forall q, In q failed ->
     exists e', call_provider cfg ext q question context history = Some (Raise e')) ->
  call_provider cfg ext last question context history = Some (Raise e) ->
  try_models cfg ext (failed ++ [last]) last_error question context history chunks
  = Ok (ErrorResponse (all_models_failed (Some e))).
Proof.
  intros Hfailed Hlast. revert last_error.
  induction failed as [|q failed IH]; intros last_error; simpl.
  - now rewrite (attempt_call last _ Hlast).
  - destruct (Hfailed q (or_introl eq_refl)) as [e' He'].
    rewrite (attempt_call q _ He'). cbn [bind].
    apply IH. intros q' Hin. apply Hfailed. now right.
Qed.

End Chain.

(** The availability table: the three providers with a library and a
    credential; [mistral] is switched off in the table itself. *)
Lemma is_available_iff (cfg : Config) (p : string) :
  is_available cfg p = true <->
  (p = "gemini" /\ gemini_ready cfg = true) \/
  (p = "openai" /\ openai_ready cfg = true) \/
  (p = "claude" /\ claude_ready cfg = true).
Proof.
  unfold is_available, model_availability, gemini_ready, openai_ready, claude_ready.
  cbn [Dict.get].
  destruct (String.eqb_spec "gemini" p) as [<-|Hg].
  { split; [intros H; left; now split|].
    intros [[_ H]|[[H _]|[H _]]]; [exact H|discriminate|discriminate]. }
  destruct (String.eqb_spec "openai" p) as [<-|Ho].
  { split; [intros H; right; left; now split|].
    intros [[H _]|[[_ H]|[H _]]]; [discriminate|exact H|discriminate]. }
  destruct (String.eqb_spec "claude" p) as [<-|Hc].
  { split; [intros H; right; right; now split|].
    intros [[H _]|[[H _]|[_ H]]]; [discriminate|discriminate|exact H]. }
  destruct (String.eqb_spec "mistral" p) as [<-|Hm].
  { split; [discriminate|].
    intros [[H _]|[[H _]|[H _]]]; discriminate. }
  split; [discriminate|].
  intros [[H _]|[[H _]|[H _]]]; congruence.
Qed.

Lemma available_models_available (cfg : Config) (model p : string) :
  In p (available_models cfg model) -> is_available cfg p = true.
Proof.
  unfold available_models. intros Hin. apply in_app_or in Hin as [Hin|Hin].
  - destruct (is_available cfg model) eqn:Hm; [|destruct Hin].
    destruct Hin as [<-|[]]. exact Hm.
  - apply filter_In in Hin as [_ Hp]. now apply andb_prop in Hp as [_ Hp].
Qed.

Lemma generate_nonempty (cfg : Config) (ext : Services) (model question : string)
      (history : option (list Message)) (chunks : list ChunkData) :
  available_models cfg model <> [] ->
  generate cfg ext model question history chunks =
  try_models cfg ext (available_models cfg model) None question (context_of chunks)
             (or_empty history) chunks.
Proof.
  unfold generate. fold (context_of chunks).
  destruct (available_models cfg model); [congruence|reflexivity].
Qed.

Lemma answer_question_context_ready (cfg : Config) (ext : Services) (st : Store)
      (question doc model : string) (history : option (list Message))
      (chunks : list ChunkData) (r : Response) :
  _retrieve_relevant_chunks cfg ext st question doc 3 = Ok chunks ->
  chunks <> [] ->
  generate cfg ext model question history chunks = Ok r ->
  answer_question cfg ext st question doc model history = Ok r.
Proof.
  intros Hretr Hne Hgen. unfold answer_question. rewrite Hretr. cbn [bind].
  destruct chunks as [|c chunks]; [congruence|].
  now rewrite Hgen.
Qed.

(** C3, as the code has it.  On the context-ready path the providers are
    tried in the order: the requested model if it is available, then gemini,
    openai, claude, mistral without the requested model, each only if
    available; available means library and credential present for gemini,
    openai and claude, and never for mistral, which the availability table
    switches off.  The first provider whose call returns ends the loop, and
    the response has status success and names that provider as [model_used],
    whether or not it is the requested one. *)
Theorem provider_fallback_order (cfg : Config) (ext : Services) (st : Store)
        (question doc model : string) (history : option (list Message))
        (chunks : list ChunkData) :
  _retrieve_relevant_chunks cfg ext st question doc 3 = Ok chunks ->
  chunks <> [] ->
  (forall p, is_available cfg p = true <->
     (p = "gemini" /\ gemini_ready cfg = true) \/
     (p = "openai" /\ openai_ready cfg = true) \/
     (p = "claude" /\ claude_ready cfg = true)) /\
  available_models cfg model =
    (if is_available cfg model then [model] else []) ++
    filter (fun p => negb (String.eqb p model) && is_available cfg p)
           ["gemini"; "openai"; "claude"; "mistral"] /\
  (forall failed p rest answer,
     available_models cfg model = failed ++ p :: rest ->
     (forall q, In q failed ->
        exists e, call_provider cfg ext q question (context_of chunks) (or_empty history)
                  = Some (Raise e)) ->
     call_provider cfg ext p question (context_of chunks) (or_empty history)
       = Some (Ok answer) ->
     exists r,
       answer_question cfg ext st question doc model history = Ok r /\
       r = AnswerSuccess answer p chunks /\
       status r = Some "success" /\
       model_used r = Some p /\
       source_chunks r = Some chunks).
Proof.
  intros Hretr Hne. split; [|split].
  - apply is_available_iff.
  - reflexivity.
  - intros failed p rest answer Horder Hfailed Hp.
    exists (AnswerSuccess answer p chunks). repeat split.
    apply (answer_question_context_ready _ _ _ _ _ _ _ chunks); try assumption.
    rewrite generate_nonempty, Horder.
    + now apply try_models_first_success.
    + rewrite Horder. now destruct failed.
Qed.

(** Gemini is the only provider configured and [openai] is requested: gemini
    answers and the status is success. *)
Lemma provider_fallback_order_witness :
  answer_question gemini_cfg answering one_chunk_store "what" "d" "openai" None
  = Ok (AnswerSuccess "gemini says" "gemini"
          [mkChunkData (mkChunk "d" "hello world" 0) (chunk_id_of "d" 0)]).
Proof.
  destruct (provider_fallback_order gemini_cfg answering one_chunk_store "what" "d"
              "openai" None [mkChunkData (mkChunk "d" "hello world" 0) (chunk_id_of "d" 0)])
    as (_ & _ & Hfirst).
  - reflexivity.
  - discriminate.
  - destruct (Hfirst [] "gemini" [] "gemini says") as (r & Hr & -> & _).
    + reflexivity.
    + intros q [].
    + reflexivity.
    + exact Hr.
Defined.

(** The input of C3 on which the order is not the one stated: mistral has its
    library and its credential and is the requested model, its call would
    answer, and yet no provider is tried. *)
Lemma provider_fallback_order_counterexample :
  mistral_ready mistral_cfg = true /\
  _retrieve_relevant_chunks mistral_cfg answering one_chunk_store "what" "d" 3
  = Ok [mkChunkData (mkChunk "d" "hello world" 0) (chunk_id_of "d" 0)] /\
  call_provider mistral_cfg answering "mistral" "what" "hello world" []
  = Some (Ok "mistral says") /\
  available_models mistral_cfg "mistral" = [] /\
  answer_question mistral_cfg answering one_chunk_store "what" "d" "mistral" None
  = Ok (ErrorResponse "No AI models available for generating responses.").
Proof.
  repeat split.
Qed.

(** C4.  On the context-ready path, when no provider is available or the call
    of every available provider raises, the answer is an error response with
    a non-empty description; with no provider it says so, and otherwise it
    ends with the message of the failure of the last provider tried. *)
Theorem all_providers_failed (cfg : Config) (ext : Services) (st : Store)
        (question doc model : string) (history : option (list Message))
        (chunks : list ChunkData) :
  _retrieve_relevant_chunks cfg ext st question doc 3 = Ok chunks ->
  chunks <> [] ->
  (forall p, In p (available_models cfg model) ->
     exists e, call_provider cfg ext p question (context_of chunks) (or_empty history)
               = Some (Raise e)) ->
  exists msg,
    answer_question cfg ext st question doc model history = Ok (ErrorResponse msg) /\
    status (ErrorResponse msg) = Some "error" /\
    msg <> "" /\
    (available_models cfg model = [] ->
     msg = "No AI models available for generating responses.") /\
    (forall tried last e,
       available_models cfg model = tried ++ [last] ->
       call_provider cfg ext last question (context_of chunks) (or_empty history)
         = Some (Raise e) ->
       msg = ("Error generating answer with all available models. Last error: "
              ++ str_exn e)%string).
Proof.
  intros Hretr Hne Hall.
  destruct (available_models cfg model) as [|p0 models] eqn:Havail.
  - exists "No AI models available for generating responses.". repeat split.
    + apply (answer_question_context_ready _ _ _ _ _ _ _ chunks); try assumption.
      unfold generate. now rewrite Havail.
    + discriminate.
    + intros tried last e Habs. now destruct tried.
  - destruct (exists_last (l := p0 :: models)) as (tried & last & Hsplit); [discriminate|].
    destruct (Hall last) as [e He]; [rewrite Hsplit; apply in_or_app; right; now left|].
    exists (all_models_failed (Some e)). repeat split.
    + apply (answer_question_context_ready _ _ _ _ _ _ _ chunks); try assumption.
      rewrite generate_nonempty, Havail, Hsplit by (rewrite Havail; discriminate).
      apply try_models_all_failed; [|exact He].
      intros q Hq. apply Hall. rewrite Hsplit. apply in_or_app. now left.
    + discriminate.
    + discriminate.
    + intros tried' last' e' Hsplit' He'.
      rewrite Hsplit in Hsplit'. apply app_inj_tail in Hsplit' as [_ <-].
      rewrite He in He'. now inversion He'.
Qed.

Lemma all_providers_failed_witness :
  answer_question gemini_cfg (failing (ExternalError "quota")) one_chunk_store
                  "what" "d" "openai" None
  = Ok (ErrorResponse
          "Error generating answer with all available models. Last error: Failed to generate response with Gemini: quota").
Proof.
  destruct (all_providers_failed gemini_cfg (failing (ExternalError "quota")) one_chunk_store
              "what" "d" "openai" None
              [mkChunkData (mkChunk "d" "hello world" 0) (chunk_id_of "d" 0)])
    as (msg & Hans & _ & _ & _ & Hlast).
  - reflexivity.
  - discriminate.
  - intros p [<-|[]]. eexists. reflexivity.
  - rewrite Hans. f_equal. f_equal.
    apply (Hlast [] "gemini" (ValueError "Failed to generate response with Gemini: quota"));
      reflexivity.
Defined.

(** *** No exception escapes *)

Lemma returns_bind {A B : Type} (m : outcome A) (k : A -> outcome B) :
  returns m -> (forall a, m = Ok a -> returns (k a)) -> returns (bind m k).
Proof.
  unfold returns. destruct m as [a|e|]; cbn; intros Hm Hk.
  - now apply Hk.
  - discriminate.
  - congruence.
Qed.

Lemma speaks_bind {A B : Type} (m : outcome A) (k : A -> outcome B) :
  speaks m -> (forall a, m = Ok a -> speaks (k a)) -> speaks (bind m k).
Proof.
  unfold speaks. destruct m as [a|e|]; cbn; intros Hm Hk e' He'.
  - now apply (Hk a eq_refl).
  - inversion He'; subst. now apply Hm.
  - discriminate.
Qed.

Lemma returns_try {A : Type} (body : outcome A) (handler : exn -> outcome A) :
  returns body -> (forall e, body = Raise e -> returns (handler e)) ->
  returns (try_except body handler).
Proof.
  unfold returns. destruct body as [a|e|]; cbn; intros Hb Hh.
  - discriminate.
  - now apply Hh.
  - congruence.
Qed.

Lemma returns_Ok {A : Type} (a : A) : returns (Ok a).
Proof. discriminate. Qed.

Lemma returns_Raise {A : Type} (e : exn) : returns (@Raise A e).
Proof. discriminate. Qed.

Lemma speaks_Ok {A : Type} (a : A) : speaks (Ok a).
Proof. intros e He. discriminate. Qed.

Lemma speaks_Raise {A : Type} (e : exn) : str_exn e <> "" -> speaks (@Raise A e).
Proof. intros Hne e' He'. inversion He'. now subst. Qed.

Lemma speaks_retype {A B : Type} (e : exn) : speaks (@Raise A e) -> speaks (@Raise B e).
Proof. intros H. apply speaks_Raise. now apply H. Qed.

Create HintDb outcomes.
#[local] Hint Resolve returns_Ok returns_Raise speaks_Ok : outcomes.

Section Escapes.
Variable cfg : Config.
Variable ext : Services.

Lemma generate_embedding_returns (text : string) :
  services_all (@returns) ext -> returns (_generate_embedding_openai cfg ext text).
Proof.
  intros (Hemb & _). unfold _generate_embedding_openai.
  destruct (negb (HAS_OPENAI cfg) || negb (truthy_opt (OPENAI_API_KEY cfg)));
    auto with outcomes.
Qed.

Lemma generate_embedding_speaks (text : string) :
  services_all (@speaks) ext -> speaks (_generate_embedding_openai cfg ext text).
Proof.
  intros (Hemb & _). unfold _generate_embedding_openai.
  destruct (negb (HAS_OPENAI cfg) || negb (truthy_opt (OPENAI_API_KEY cfg))).
  - apply speaks_Raise. discriminate.
  - apply Hemb.
Qed.

Lemma store_chunk_returns (chunk_id doc text : string) (embedding : vector) :
  services_all (@returns) ext ->
  returns (_store_chunk_in_supabase cfg ext chunk_id doc text embedding).
Proof.
  intros (_ & Hins & _). unfold _store_chunk_in_supabase.
  destruct (negb (HAS_SUPABASE cfg) || negb (supabase_client cfg)); auto with outcomes.
  apply returns_try; auto with outcomes.
Qed.

Lemma store_chunk_speaks (chunk_id doc text : string) (embedding : vector) :
  services_all (@speaks) ext ->
  speaks (_store_chunk_in_supabase cfg ext chunk_id doc text embedding).
Proof.
  intros (_ & Hins & _). unfold _store_chunk_in_supabase.
  destruct (negb (HAS_SUPABASE cfg) || negb (supabase_client cfg)).
  - apply speaks_Raise. discriminate.
  - specialize (Hins chunk_id doc text embedding).
    destruct (supabase_insert ext chunk_id doc text embedding); cbn; auto with outcomes.
Qed.

Lemma embed_and_store_returns (doc : string) (items : list (nat * string))
      (chunk_ids : list string) (st : Store) :
  services_all (@returns) ext ->
  returns (fst (embed_and_store cfg ext doc items chunk_ids st)).
Proof.
  intros Hret. revert chunk_ids st.
  induction items as [|[i chunk_i] items IH]; intros chunk_ids st; cbn.
  - apply returns_Ok.
  - unfold mbind, lift, modify.
    pose proof (generate_embedding_returns chunk_i Hret) as Hemb.
    destruct (_generate_embedding_openai cfg ext chunk_i) as [embedding| |];
      cbn [fst]; [|apply returns_Raise|now elim Hemb].
    destruct (HAS_SUPABASE cfg && supabase_client cfg).
    + pose proof (store_chunk_returns (chunk_id_of doc i) doc chunk_i embedding Hret) as Hst.
      destruct (_store_chunk_in_supabase cfg ext (chunk_id_of doc i) doc chunk_i embedding)
        as [[]| |]; cbn [fst]; [apply IH|apply returns_Raise|now elim Hst].
    + apply IH.
Qed.

Lemma embed_and_store_speaks (doc : string) (items : list (nat * string))
      (chunk_ids : list string) (st : Store) :
  services_all (@speaks) ext ->
  speaks (fst (embed_and_store cfg ext doc items chunk_ids st)).
Proof.
  intros Hsp. revert chunk_ids st.
  induction items as [|[i chunk_i] items IH]; intros chunk_ids st; cbn.
  - apply speaks_Ok.
  - unfold mbind, lift, modify.
    pose proof (generate_embedding_speaks chunk_i Hsp) as Hemb.
    destruct (_generate_embedding_openai cfg ext chunk_i) as [embedding| |];
      cbn [fst]; [|exact (speaks_retype _ Hemb)|intros e He; discriminate].
    destruct (HAS_SUPABASE cfg && supabase_client cfg).
    + pose proof (store_chunk_speaks (chunk_id_of doc i) doc chunk_i embedding Hsp) as Hst.
      destruct (_store_chunk_in_supabase cfg ext (chunk_id_of doc i) doc chunk_i embedding)
        as [[]| |]; cbn [fst];
        [apply IH|exact (speaks_retype _ Hst)|intros e He; discriminate].
    + apply IH.
Qed.

Lemma store_plain_ok (doc : string) (items : list (nat * string))
      (chunk_ids : list string) (st : Store) :
  exists ids st', store_plain doc items chunk_ids st = (Ok ids, st').
Proof.
  revert chunk_ids st. induction items as [|[i chunk_i] items IH]; intros chunk_ids st; cbn.
  - now exists chunk_ids, st.
  - unfold mbind, modify. apply IH.
Qed.

Lemma process_document_unfold (fuel : nat) (doc text : string) (size overlap : Z) (st : Store) :
  process_document cfg ext fuel doc text size overlap st =
  match process_document_body cfg ext fuel doc text size overlap st with
  | (Raise e, st') => (Ok (ErrorResponse (str_exn e)), st')
  | other => other
  end.
Proof. reflexivity. Qed.

Lemma process_document_body_cases (fuel : nat) (doc text : string) (size overlap : Z) (st : Store) :
  let o := fst (process_document_body cfg ext fuel doc text size overlap st) in
  (forall r, o = Ok r -> exists n ids w, r = ProcessSuccess doc n ids w) /\
  (services_all (@speaks) ext -> speaks o) /\
  (services_all (@returns) ext ->
   returns (_chunk_document fuel text size overlap) -> returns o).
Proof.
  unfold process_document_body, mbind, lift, mret.
  destruct (_chunk_document fuel text size overlap) as [chunks|e|] eqn:Hchunks; cbn.
  2: { exfalso. eapply chunk_document_never_raises_aux; eassumption. }
  2: { split; [|split].
       - intros r Hr. discriminate.
       - intros _ e He. discriminate.
       - intros _ Hret. now elim Hret. }
  destruct (HAS_OPENAI cfg && truthy_opt (OPENAI_API_KEY cfg)).
  - pose proof (embed_and_store_returns doc (enumerate chunks) [] st) as Hret.
    pose proof (embed_and_store_speaks doc (enumerate chunks) [] st) as Hsp.
    destruct (embed_and_store cfg ext doc (enumerate chunks) [] st) as [[ids|e|] st'];
      cbn in *; (split; [|split]).
    + intros r Hr. inversion Hr. eauto.
    + intros _. apply speaks_Ok.
    + intros _ _. apply returns_Ok.
    + intros r Hr. discriminate.
    + intros H. exact (speaks_retype _ (Hsp H)).
    + intros _ _. apply returns_Raise.
    + intros r Hr. discriminate.
    + intros _ e He. discriminate.
    + intros H _. now elim (Hret H).
  - destruct (store_plain_ok doc (enumerate chunks) [] st) as (ids & st' & ->).
    cbn. split; [|split].
    + intros r Hr. inversion Hr. eauto.
    + intros _. apply speaks_Ok.
    + intros _ _. apply returns_Ok.
Qed.

End Escapes.

Section Answers.
Variable cfg : Config.
Variable ext : Services.

Lemma cosine_similarity_cases (v1 v2 : vector) :
  (exists x, _cosine_similarity v1 v2 = Ok x) \/
  _cosine_similarity v1 v2 = Raise (ValueError "shapes not aligned").
Proof.
  unfold _cosine_similarity, np_dot.
  destruct (Nat.eqb (List.length v1) (List.length v2)); cbn [bind].
  - left. destruct (is_zero (norm v1) || is_zero (norm v2)); eauto.
  - now right.
Qed.

Lemma similarities_of_cases (st : Store) (qe : vector) (items : list (string * Chunk))
      (doc : string) :
  (exists l, similarities_of st qe items doc = Ok l) \/
  similarities_of st qe items doc = Raise (ValueError "shapes not aligned").
Proof.
  induction items as [|[chunk_id c] items IH]; cbn [similarities_of].
  - left. eauto.
  - destruct (String.eqb (document_id c) doc); [|exact IH].
    destruct (Dict.get chunk_id (document_embeddings st)) as [emb|]; [|exact IH].
    destruct (cosine_similarity_cases qe emb) as [[x ->]| ->]; cbn [bind]; [|now right].
    destruct IH as [[l ->]| ->]; cbn [bind]; [left; eauto|now right].
Qed.

Lemma chunk_data_of_cases (st : Store) (ids : list string) :
  (exists l, chunk_data_of st ids = Ok l) \/
  (exists k, chunk_data_of st ids = Raise (KeyError (repr_str k))).
Proof.
  induction ids as [|chunk_id ids IH]; cbn [chunk_data_of].
  - left. eauto.
  - destruct (Dict.get chunk_id (document_chunks st)) as [c|]; [|right; eauto].
    destruct IH as [[l ->]|[k ->]]; cbn [bind]; [left|right]; eauto.
Qed.

Lemma chunk_data_of_returns_speaks (st : Store) (ids : list string) :
  returns (chunk_data_of st ids) /\ speaks (chunk_data_of st ids).
Proof.
  destruct (chunk_data_of_cases st ids) as [[l ->]|[k ->]]; split;
    auto with outcomes.
  apply speaks_Raise. discriminate.
Qed.

Lemma vector_search_returns_speaks (st : Store) (qe : vector) (doc : string) (top_k : Z) :
  returns (vector_search_in_memory st qe doc top_k) /\
  speaks (vector_search_in_memory st qe doc top_k).
Proof.
  unfold vector_search_in_memory.
  destruct (chunks_of st doc) as [|kv others]; [split; auto with outcomes|].
  destruct (similarities_of_cases st qe (Dict.items (document_chunks st)) doc)
    as [[l ->]| ->]; cbn [bind].
  - apply chunk_data_of_returns_speaks.
  - split; [apply returns_Raise|apply speaks_Raise; discriminate].
Qed.

Lemma keyword_search_returns_speaks (st : Store) (query doc : string) (top_k : Z) :
  returns (keyword_search st query doc top_k) /\
  speaks (keyword_search st query doc top_k).
Proof.
  unfold keyword_search.
  destruct (chunks_of st doc) as [|kv others]; [split; auto with outcomes|].
  apply chunk_data_of_returns_speaks.
Qed.

Lemma retrieve_returns (st : Store) (query doc : string) (top_k : Z) :
  services_all (@returns) ext ->
  returns (_retrieve_relevant_chunks cfg ext st query doc top_k).
Proof.
  intros Hret. unfold _retrieve_relevant_chunks.
  destruct (HAS_OPENAI cfg && truthy_opt (OPENAI_API_KEY cfg));
    [|apply keyword_search_returns_speaks].
  apply returns_bind; [now apply generate_embedding_returns|].
  intros qe _. destruct (HAS_SUPABASE cfg && supabase_client cfg);
    [|apply vector_search_returns_speaks].
  destruct Hret as (_ & _ & Hrpc & _). specialize (Hrpc qe doc top_k).
  destruct (supabase_match_document_chunks ext qe doc top_k);
    [apply returns_Ok|apply vector_search_returns_speaks|exact Hrpc].
Qed.

Lemma retrieve_speaks (st : Store) (query doc : string) (top_k : Z) :
  services_all (@speaks) ext ->
  speaks (_retrieve_relevant_chunks cfg ext st query doc top_k).
Proof.
  intros Hsp. unfold _retrieve_relevant_chunks.
  destruct (HAS_OPENAI cfg && truthy_opt (OPENAI_API_KEY cfg));
    [|apply keyword_search_returns_speaks].
  apply speaks_bind; [now apply generate_embedding_speaks|].
  intros qe _. destruct (HAS_SUPABASE cfg && supabase_client cfg);
    [|apply vector_search_returns_speaks].
  destruct (supabase_match_document_chunks ext qe doc top_k);
    [apply speaks_Ok|apply vector_search_returns_speaks|intros e He; discriminate].
Qed.

Lemma mistral_alternatives_returns (messages : list Message) (alt_models : list string) :
  services_all (@returns) ext -> returns (mistral_alternatives ext messages alt_models).
Proof.
  intros (_ & _ & _ & _ & _ & _ & Hchat).
  induction alt_models as [|alt alt_models IH]; cbn [mistral_alternatives].
  - apply returns_Ok.
  - specialize (Hchat alt messages).
    destruct (mistral_chat ext alt messages) as [[text|]| |];
      [apply returns_Ok|exact IH|exact IH|exact Hchat].
Qed.

Lemma call_provider_returns (p question context : string) (history : list Message)
      (o : outcome string) :
  services_all (@returns) ext ->
  call_provider cfg ext p question context history = Some o -> returns o.
Proof.
  intros Hret. pose proof (mistral_alternatives_returns) as Halt.
  destruct Hret as (Hemb & Hins & Hrpc & Hgem & Hoai & Hant & Hmis) eqn:Hsplit.
  unfold call_provider.
  destruct (String.eqb p "gemini");
    [|destruct (String.eqb p "openai");
      [|destruct (String.eqb p "claude"); [|destruct (String.eqb p "mistral")]]];
    intros H; inversion H; clear H.
  - unfold _generate_answer_gemini.
    destruct (negb (HAS_GENAI cfg) || negb (truthy_opt (GEMINI_API_KEY cfg)));
      [apply returns_Raise|].
    apply returns_try; [apply Hgem|intros; apply returns_Raise].
  - unfold _generate_answer_openai.
    destruct (negb (HAS_OPENAI cfg) || negb (truthy_opt (OPENAI_API_KEY cfg)));
      [apply returns_Raise|apply Hoai].
  - unfold _generate_answer_claude.
    destruct (negb (HAS_ANTHROPIC cfg) || negb (truthy_opt (ANTHROPIC_API_KEY cfg)));
      [apply returns_Raise|].
    apply returns_try; [|intros; apply returns_Raise].
    apply returns_try; [|intros; apply returns_Raise].
    apply returns_bind; [apply Hant|]. intros [text|] _; apply returns_Ok.
  - unfold _generate_answer_mistral.
    destruct (negb (HAS_MISTRAL cfg) || negb (truthy_opt (MISTRAL_API_KEY cfg)));
      [apply returns_Raise|].
    apply returns_try; [|intros; apply returns_Raise].
    apply returns_try.
    + apply returns_bind; [apply Hmis|]. intros [text|] _; apply returns_Ok.
    + intros e _. apply returns_bind.
      * apply Halt. repeat split; assumption.
      * intros [text|] _; [apply returns_Ok|apply returns_Raise].
Qed.

Lemma attempt_returns (p question context : string) (history : list Message)
      (chunks : list ChunkData) :
  services_all (@returns) ext ->
  returns (attempt cfg ext p question context history chunks).
Proof.
  intros Hret.
  destruct (call_provider cfg ext p question context history) as [o|] eqn:Hcall.
  - rewrite (attempt_call _ _ _ _ _ chunks _ _ Hcall).
    apply returns_bind; [now apply (call_provider_returns _ _ _ _ _ Hret Hcall)|].
    intros; apply returns_Ok.
  - revert Hcall. unfold call_provider, attempt.
    destruct (String.eqb p "gemini"); [discriminate|].
    destruct (String.eqb p "openai"); [discriminate|].
    destruct (String.eqb p "claude"); [discriminate|].
    destruct (String.eqb p "mistral"); [discriminate|].
    intros _. apply returns_Ok.
Qed.

Lemma try_models_never_raises (models : list string) (last_error : option exn)
      (question context : string) (history : list Message) (chunks : list ChunkData)
      (e : exn) :
  try_models cfg ext models last_error question context history chunks <> Raise e.
Proof.
  revert last_error. induction models as [|p models IH]; intros last_error; cbn [try_models].
  - discriminate.
  - destruct (attempt cfg ext p question context history chunks) as [[r|]|e'|];
      [discriminate|apply IH|apply IH|discriminate].
Qed.

Lemma try_models_returns (models : list string) (last_error : option exn)
      (question context : string) (history : list Message) (chunks : list ChunkData) :
  services_all (@returns) ext ->
  returns (try_models cfg ext models last_error question context history chunks).
Proof.
  intros Hret. revert last_error.
  induction models as [|p models IH]; intros last_error; cbn [try_models].
  - apply returns_Ok.
  - pose proof (attempt_returns p question context history chunks Hret) as Ha.
    destruct (attempt cfg ext p question context history chunks) as [[r|]|e'|];
      [apply returns_Ok|apply IH|apply IH|now elim Ha].
Qed.

Lemma try_models_error_nonempty (models : list string) (last_error : option exn)
      (question context : string) (history : list Message) (chunks : list ChunkData)
      (msg : string) :
  try_models cfg ext models last_error question context history chunks
    = Ok (ErrorResponse msg) ->
  msg <> "".
Proof.
  revert last_error. induction models as [|p models IH]; intros last_error; cbn [try_models].
  - intros H. inversion H. discriminate.
  - destruct (attempt cfg ext p question context history chunks) as [[r|]|e'|] eqn:Ha;
      [|apply IH|apply IH|discriminate].
    apply attempt_not_fallback in Ha as [answer ->]. discriminate.
Qed.

Lemma generate_cases (model question : string) (history : option (list Message))
      (chunks : list ChunkData) :
  (forall e, generate cfg ext model question history chunks <> Raise e) /\
  (services_all (@returns) ext -> returns (generate cfg ext model question history chunks)) /\
  (forall msg, generate cfg ext model question history chunks = Ok (ErrorResponse msg) ->
               msg <> "").
Proof.
  unfold generate. destruct (available_models cfg model) as [|p models].
  - repeat split; try discriminate. intros msg H. inversion H. discriminate.
  - split; [|split].
    + intros e. apply try_models_never_raises.
    + apply try_models_returns.
    + intros msg. apply try_models_error_nonempty.
Qed.

End Answers.

Lemma answer_question_cases (cfg : Config) (ext : Services) (st : Store)
      (question doc model : string) (history : option (list Message)) :
  let answer := answer_question cfg ext st question doc model history in
  (forall e, answer <> Raise e) /\
  (forall r, answer = Ok r ->
     (exists a p cs, r = AnswerSuccess a p cs) \/ (exists msg, r = ErrorResponse msg)) /\
  (services_all (@returns) ext -> exists r, answer = Ok r) /\
  (services_all (@speaks) ext -> forall msg, answer = Ok (ErrorResponse msg) -> msg <> "").
Proof.
  cbn zeta. unfold answer_question.
  pose proof (retrieve_returns cfg ext st question doc 3) as Hret.
  pose proof (retrieve_speaks cfg ext st question doc 3) as Hsp.
  destruct (_retrieve_relevant_chunks cfg ext st question doc 3) as [[|c chunks]|e|];
    cbn [bind].
  - destruct (sample_document_text_cases doc (Dict.items (document_chunks st)))
      as [-> | ->]; cbn; (split; [|split; [|split]]); try discriminate.
    + intros r H. inversion H. right. eauto.
    + intros _. eauto.
    + intros _ msg H. inversion H. discriminate.
    + intros r H. inversion H. right. eauto.
    + intros _. eauto.
    + intros _ msg H. inversion H. discriminate.
  - destruct (generate_cases cfg ext model question history (c :: chunks))
      as (Hnr & Hgret & Hgne).
    destruct (generate cfg ext model question history (c :: chunks)) as [r|e|] eqn:Hg;
      cbn [try_except]; [|now elim (Hnr e)|].
    + split; [discriminate|split; [|split]].
      * intros r' H. inversion H; subst r'.
        apply generate_shape in Hg as [[msg ->]|(a & p & ->)]; [right|left]; eauto.
      * intros _. eauto.
      * intros _ msg H. inversion H; subst r. now apply Hgne.
    + split; [discriminate|split; [|split]].
      * discriminate.
      * intros H. now elim (Hgret H).
      * discriminate.
  - cbn [try_except]. split; [discriminate|split; [|split]].
    + intros r H. inversion H. right. eauto.
    + intros _. eauto.
    + intros H msg Hmsg. inversion Hmsg. now apply (Hsp H e).
  - cbn [try_except]. split; [discriminate|split; [|split]].
    + discriminate.
    + intros H. now elim (Hret H).
    + discriminate.
Qed.

Lemma process_document_cases (cfg : Config) (ext : Services) (fuel : nat)
      (doc text : string) (size overlap : Z) (st : Store) :
  let ingest := fst (process_document cfg ext fuel doc text size overlap st) in
  (forall e, ingest <> Raise e) /\
  (forall r, ingest = Ok r ->
     (exists n ids w, r = ProcessSuccess doc n ids w) \/ (exists msg, r = ErrorResponse msg)) /\
  (services_all (@returns) ext -> returns (_chunk_document fuel text size overlap) ->
   exists r, ingest = Ok r) /\
  (services_all (@speaks) ext -> forall msg, ingest = Ok (ErrorResponse msg) -> msg <> "").
Proof.
  cbn zeta. rewrite process_document_unfold.
  destruct (process_document_body_cases cfg ext fuel doc text size overlap st)
    as (Hshape & Hsp & Hret).
  destruct (process_document_body cfg ext fuel doc text size overlap st) as [[r|e|] st'];
    cbn [fst] in *; (split; [discriminate|split; [|split]]).
  - intros r' H. inversion H; subst r'. left. now apply Hshape.
  - intros _ _. eauto.
  - intros _ msg H. inversion H; subst r.
    destruct (Hshape _ eq_refl) as (n & ids & w & Habs). discriminate.
  - intros r H. inversion H. right. eauto.
  - intros _ _. eauto.
  - intros H msg Hmsg. inversion Hmsg. now apply (Hsp H e).
  - discriminate.
  - intros H1 H2. now elim (Hret H1 H2).
  - discriminate.
Qed.



Lemma answering_speaks : services_all (@speaks) answering.
Proof. repeat split; unfold speaks; intros; discriminate. Qed.



(** *** Dictionaries *)

Section DictFacts.
Context {V : Type}.
Implicit Types (d : Dict.t V) (k : string) (v : V).

Lemma dict_get_set_same k v d : Dict.get k (Dict.set k v d) = Some v.
Proof.
  induction d as [|[k' v'] d IH]; simpl.
  - now rewrite String.eqb_refl.
  - destruct (String.eqb k' k) eqn:E; simpl; rewrite E; [reflexivity|exact IH].
Qed.

Lemma dict_get_set_other k k' v d :
  k <> k' -> Dict.get k (Dict.set k' v d) = Dict.get k d.
Proof.
  intros Hne. induction d as [|[k0 v0] d IH]; simpl.
  - destruct (String.eqb_spec k' k); [congruence|reflexivity].
  - destruct (String.eqb_spec k0 k') as [->|Hk0]; simpl.
    + destruct (String.eqb_spec k' k); [congruence|reflexivity].
    + destruct (String.eqb k0 k); [reflexivity|exact IH].
Qed.

Lemma dict_set_present k v d : Dict.get k d = Some v -> Dict.set k v d = d.
Proof.
  induction d as [|[k' v'] d IH]; simpl.
  - discriminate.
  - destruct (String.eqb k' k) eqn:E.
    + intros H. inversion H. reflexivity.
    + intros H. now rewrite IH.
Qed.



Lemma dict_get_not_in k d : ~ In k (Dict.keys d) -> Dict.get k d = None.
Proof.
  induction d as [|[k' v'] d IH]; simpl.
  - reflexivity.
  - intros Hnot. destruct (String.eqb_spec k' k) as [->|_].
    + exfalso. apply Hnot. now left.
    + apply IH. intros Hin. apply Hnot. now right.
Qed.

Lemma dict_get_in k v d :
  NoDup (Dict.keys d) -> In (k, v) d -> Dict.get k d = Some v.
Proof.
  induction d as [|[k' v'] d IH]; simpl; intros Hnd Hin.
  - destruct Hin.
  - inversion Hnd as [|? ? Hk' Hnd']; subst.
    destruct Hin as [Heq|Hin].
    + inversion Heq; subst. now rewrite String.eqb_refl.
    + destruct (String.eqb_spec k' k) as [->|_].
      * exfalso. apply Hk'. unfold Dict.keys. apply in_map_iff. now exists (k, v).
      * now apply IH.
Qed.

Lemma set_all_get_other k (writes : list (string * V)) d :
  ~ In k (map fst writes) -> Dict.get k (Dict.set_all writes d) = Dict.get k d.
Proof.
  unfold Dict.set_all. revert d.
  induction writes as [|[k' v'] writes IH]; intros d; simpl; intros Hnot.
  - reflexivity.
  - rewrite IH by tauto. apply dict_get_set_other. intros ->. tauto.
Qed.

Lemma set_all_get k v (writes : list (string * V)) d :
  NoDup (map fst writes) -> In (k, v) writes ->
  Dict.get k (Dict.set_all writes d) = Some v.
Proof.
  unfold Dict.set_all. revert d.
  induction writes as [|[k' v'] writes IH]; intros d; simpl; intros Hnd Hin.
  - destruct Hin.
  - inversion Hnd as [|? ? Hk' Hnd']; subst.
    destruct Hin as [Heq|Hin].
    + inversion Heq; subst.
      fold (Dict.set_all writes (Dict.set k v d)).
      rewrite set_all_get_other by exact Hk'. apply dict_get_set_same.
    + now apply IH.
Qed.

Lemma set_all_present (writes : list (string * V)) d :
  (forall k v, In (k, v) writes -> Dict.get k d = Some v) ->
  Dict.set_all writes d = d.
Proof.
  unfold Dict.set_all.
  induction writes as [|[k' v'] writes IH]; simpl; intros Hall.
  - reflexivity.
  - rewrite dict_set_present by (apply Hall; now left).
    apply IH. intros k v Hin. apply Hall. now right.
Qed.

(** Assigning the same values to the same distinct keys a second time changes
    nothing, not even the order of the items. *)
Lemma set_all_idempotent (writes : list (string * V)) d :
  NoDup (map fst writes) ->
  Dict.set_all writes (Dict.set_all writes d) = Dict.set_all writes d.
Proof.
  intros Hnd. apply set_all_present. intros k v Hin. now apply set_all_get.
Qed.


End DictFacts.

(** *** Chunk identities *)

Lemma string_app_inv_head (s a b : string) : (s ++ a = s ++ b)%string -> a = b.
Proof.
  induction s as [|c s IH]; simpl; intros H.
  - exact H.
  - inversion H. now apply IH.
Qed.

Lemma str_nat_inj (i j : nat) : str_nat i = str_nat j -> i = j.
Proof.
  unfold str_nat. intros H.
  assert (Hu : Nat.to_uint i = Nat.to_uint j).
  { pose proof (NilEmpty.usu (Nat.to_uint i)) as Hi.
    pose proof (NilEmpty.usu (Nat.to_uint j)) as Hj.
    rewrite H in Hi. rewrite Hi in Hj. now inversion Hj. }
  now apply DecimalNat.Unsigned.to_uint_inj.
Qed.

Lemma chunk_id_of_inj (doc : string) (i j : nat) :
  chunk_id_of doc i = chunk_id_of doc j -> i = j.
Proof.
  unfold chunk_id_of. intros H.
  apply string_app_inv_head in H. apply string_app_inv_head in H.
  now apply str_nat_inj.
Qed.

Lemma enumerate_fst {A : Type} (l : list A) :
  map fst (enumerate l) = seq 0 (List.length l).
Proof.
  unfold enumerate. generalize 0.
  induction l as [|x l IH]; intros n; simpl; [reflexivity|].
  now rewrite IH.
Qed.

Lemma chunk_writes_keys (doc : string) (items : list (nat * string)) :
  map fst (chunk_writes doc items) = map (fun ic => chunk_id_of doc (fst ic)) items.
Proof. unfold chunk_writes. now rewrite map_map. Qed.

Lemma chunk_ids_NoDup (doc : string) (items : list (nat * string)) :
  NoDup (map fst items) ->
  NoDup (map (fun ic => chunk_id_of doc (fst ic)) items).
Proof.
  intros Hnd. rewrite <- (map_map fst (chunk_id_of doc)).
  apply Injective_map_NoDup; [|exact Hnd].
  intros i j. apply chunk_id_of_inj.
Qed.

(** *** Ingestion into the in-memory store *)

Section Ingestion.
Variable cfg : Config.
Variable ext : Services.
Hypothesis in_memory : supabase_ready cfg = false.

Lemma embed_and_store_run (doc : string) (items : list (nat * string)) (embs : list vector) :
  embedded cfg ext items embs ->
  forall chunk_ids st,
    embed_and_store cfg ext doc items chunk_ids st =
    (Ok (chunk_ids ++ ids_of doc items),
     {| document_chunks := Dict.set_all (chunk_writes doc items) (document_chunks st);
        document_embeddings :=
          Dict.set_all (combine (ids_of doc items) embs) (document_embeddings st) |}).
Proof.
  unfold supabase_ready in in_memory.
  induction 1 as [|[i chunk_i] e items embs He _ IH]; intros chunk_ids st.
  - cbn. rewrite app_nil_r. now destruct st.
  - cbn [embed_and_store]. unfold mbind at 1. unfold lift at 1.
    cbn [snd] in He. rewrite He. rewrite in_memory.
    unfold mbind at 1. unfold mbind at 1. unfold modify.
    rewrite IH. cbn. now rewrite <- app_assoc.
Qed.

Lemma embed_and_store_inv (doc : string) (items : list (nat * string))
      (chunk_ids ids : list string) (st st1 : Store) :
  embed_and_store cfg ext doc items chunk_ids st = (Ok ids, st1) ->
  exists embs, embedded cfg ext items embs.
Proof.
  unfold supabase_ready in in_memory.
  revert chunk_ids st. induction items as [|[i chunk_i] items IH]; intros chunk_ids st.
  - intros _. exists []. constructor.
  - cbn [embed_and_store]. unfold mbind at 1. unfold lift at 1.
    destruct (_generate_embedding_openai cfg ext chunk_i) as [e| |] eqn:He;
      [|discriminate|discriminate].
    rewrite in_memory. unfold mbind at 1. unfold mbind at 1. unfold modify.
    intros Hrest. apply IH in Hrest as [embs Hembs].
    exists (e :: embs). now constructor.
Qed.

Lemma store_plain_run (doc : string) (items : list (nat * string))
      (chunk_ids : list string) (st : Store) :
  store_plain doc items chunk_ids st =
  (Ok (chunk_ids ++ ids_of doc items),
   {| document_chunks := Dict.set_all (chunk_writes doc items) (document_chunks st);
      document_embeddings := document_embeddings st |}).
Proof.
  revert chunk_ids st. induction items as [|[i chunk_i] items IH]; intros chunk_ids st.
  - cbn. rewrite app_nil_r. now destruct st.
  - cbn [store_plain]. unfold mbind at 1. unfold modify.
    rewrite IH. cbn. now rewrite <- app_assoc.
Qed.

Lemma embedded_keys_NoDup (doc : string) (items : list (nat * string)) (embs : list vector) :
  embedded cfg ext items embs -> NoDup (map fst items) ->
  map fst (combine (ids_of doc items) embs) = ids_of doc items /\
  NoDup (ids_of doc items).
Proof.
  intros Hemb Hnd. split; [|now apply chunk_ids_NoDup].
  induction Hemb as [|ic e items embs _ _ IH]; cbn; [reflexivity|].
  f_equal. apply IH. now inversion Hnd.
Qed.

(** What a successful ingestion leaves in the store: the chunks of the text
    assigned under their ids, in order, and in vector mode their embeddings. *)
Lemma process_document_success (fuel : nat) (doc text : string) (size overlap : Z)
      (st st1 : Store) (r : Response) :
  process_document cfg ext fuel doc text size overlap st = (Ok r, st1) ->
  status r = Some "success" ->
  exists chunks,
    _chunk_document fuel text size overlap = Ok chunks /\
    document_chunks st1 =
      Dict.set_all (chunk_writes doc (enumerate chunks)) (document_chunks st) /\
    if openai_ready cfg
    then exists embs,
        embedded cfg ext (enumerate chunks) embs /\
        document_embeddings st1 =
          Dict.set_all (combine (ids_of doc (enumerate chunks)) embs)
                       (document_embeddings st) /\
        r = ProcessSuccess doc (List.length chunks) (ids_of doc (enumerate chunks)) None
    else document_embeddings st1 = document_embeddings st /\
         r = ProcessSuccess doc (List.length chunks) (ids_of doc (enumerate chunks))
               (Some "Embeddings not generated due to missing OpenAI API key").
Proof.
  unfold process_document, mtry, process_document_body, openai_ready.
  unfold mbind at 1. unfold lift at 1.
  destruct (_chunk_document fuel text size overlap) as [chunks| |] eqn:Hchunks.
  2: { intros H; inversion H; subst. discriminate. }
  2: { discriminate. }
  intros Hrun Hstatus. exists chunks. split; [reflexivity|].
  destruct (HAS_OPENAI cfg && truthy_opt (OPENAI_API_KEY cfg)).
  - unfold mbind in Hrun.
    destruct (embed_and_store cfg ext doc (enumerate chunks) [] st) as [[ids| |] st'] eqn:Hstore.
    + destruct (embed_and_store_inv _ _ _ _ _ _ Hstore) as [embs Hembs].
      rewrite (embed_and_store_run doc _ embs Hembs) in Hstore.
      inversion Hstore; subst. unfold mret in Hrun. inversion Hrun; subst.
      split; [reflexivity|]. exists embs. auto.
    + inversion Hrun; subst. discriminate.
    + discriminate.
  - unfold mbind in Hrun. rewrite store_plain_run in Hrun.
    unfold mret in Hrun. inversion Hrun; subst. cbn. auto.
Qed.

(** The converse: the run of [process_document] on any store once the chunker
    and the embedding calls are known to return. *)
Lemma process_document_run (fuel : nat) (doc text : string) (size overlap : Z)
      (st : Store) (chunks : list string) :
  _chunk_document fuel text size overlap = Ok chunks ->
  (if openai_ready cfg
   then forall embs, embedded cfg ext (enumerate chunks) embs ->
        process_document cfg ext fuel doc text size overlap st =
        (Ok (ProcessSuccess doc (List.length chunks) (ids_of doc (enumerate chunks)) None),
         {| document_chunks :=
              Dict.set_all (chunk_writes doc (enumerate chunks)) (document_chunks st);
            document_embeddings :=
              Dict.set_all (combine (ids_of doc (enumerate chunks)) embs)
                           (document_embeddings st) |})
   else process_document cfg ext fuel doc text size overlap st =
        (Ok (ProcessSuccess doc (List.length chunks) (ids_of doc (enumerate chunks))
               (Some "Embeddings not generated due to missing OpenAI API key")),
         {| document_chunks :=
              Dict.set_all (chunk_writes doc (enumerate chunks)) (document_chunks st);
            document_embeddings := document_embeddings st |})).
Proof.
  intros Hchunks.
  unfold process_document, mtry, process_document_body, openai_ready.
  unfold mbind, lift, mret. rewrite Hchunks. cbn beta iota.
  destruct (HAS_OPENAI cfg && truthy_opt (OPENAI_API_KEY cfg)).
  - intros embs Hembs.
    now rewrite (embed_and_store_run doc _ embs Hembs).
  - now rewrite store_plain_run.
Qed.

End Ingestion.

Lemma generate_embedding_agree (cfg : Config) (ext1 ext2 : Services) (text : string) :
  openai_embeddings_create ext2 text = openai_embeddings_create ext1 text ->
  _generate_embedding_openai cfg ext2 text = _generate_embedding_openai cfg ext1 text.
Proof. unfold _generate_embedding_openai. now intros ->. Qed.

Lemma embedded_agree (cfg : Config) (ext1 ext2 : Services)
      (items : list (nat * string)) (embs : list vector) :
  embedded cfg ext1 items embs ->
  (forall ic, In ic items ->
     openai_embeddings_create ext2 (snd ic) = openai_embeddings_create ext1 (snd ic)) ->
  embedded cfg ext2 items embs.
Proof.
  induction 1 as [|ic e items embs He _ IH]; intros Hagree; constructor.
  - rewrite (generate_embedding_agree cfg ext1 ext2); [exact He|].
    apply Hagree. now left.
  - apply IH. intros ic' Hin. apply Hagree. now right.
Qed.

(** Whatever the embedding calls do, the loop has assigned the chunks of a
    prefix of the items when it stops. *)
Lemma embed_and_store_chunks_prefix (cfg : Config) (ext : Services) (doc : string)
      (items : list (nat * string)) (chunk_ids : list string) (st : Store)
      (o : outcome (list string)) (st' : Store) :
  supabase_ready cfg = false ->
  embed_and_store cfg ext doc items chunk_ids st = (o, st') ->
  exists n,
    document_chunks st' =
    Dict.set_all (chunk_writes doc (firstn n items)) (document_chunks st).
Proof.
  unfold supabase_ready. intros Hmem. revert chunk_ids st.
  induction items as [|[i c] items IH]; intros chunk_ids st; cbn [embed_and_store].
  - intros H. inversion H. now exists 0.
  - unfold mbind, lift, modify. rewrite Hmem.
    destruct (_generate_embedding_openai cfg ext c) as [e| |];
      [|intros H; inversion H; now exists 0..].
    intros H. apply IH in H as [n Hn]. exists (S n). rewrite Hn. reflexivity.
Qed.

Lemma chunk_writes_firstn_in (doc : string) (items : list (nat * string)) (n : nat)
      (kv : string * Chunk) :
  In kv (chunk_writes doc (firstn n items)) -> In kv (chunk_writes doc items).
Proof.
  unfold chunk_writes. rewrite !in_map_iff. intros (ic & Heq & Hin).
  exists ic. split; [exact Heq|].
  rewrite <- (firstn_skipn n items). apply in_or_app. now left.
Qed.

Lemma enumerate_snd_in {A : Type} (l : list A) (ic : nat * A) :
  In ic (enumerate l) -> In (snd ic) l.
Proof. destruct ic as [i x]. unfold enumerate. apply in_combine_r. Qed.

(** C9, as the code has it.  Without a durable backend, a second ingestion
    with the same arguments after a successful one leaves the chunk store
    exactly as it was, whatever the embedding service does this time; and
    when the embedding calls of the second ingestion return for every chunk
    what they returned in the first, which is always so in keyword mode where
    none is made, the second ingestion returns the same response and leaves
    both stores exactly as the first one left them.  [ext1] is the service
    during the first ingestion and [ext2] during the second. *)
Theorem process_document_idempotent (cfg : Config) (ext1 ext2 : Services) (fuel : nat)
        (doc text : string) (chunk_size chunk_overlap : Z) (st st1 : Store) (r : Response) :
  supabase_ready cfg = false ->
  process_document cfg ext1 fuel doc text chunk_size chunk_overlap st = (Ok r, st1) ->
  status r = Some "success" ->
  document_chunks (snd (process_document cfg ext2 fuel doc text chunk_size chunk_overlap st1))
  = document_chunks st1 /\
  ((forall chunks c,
      _chunk_document fuel text chunk_size chunk_overlap = Ok chunks -> In c chunks ->
      openai_embeddings_create ext2 c = openai_embeddings_create ext1 c) ->
   process_document cfg ext2 fuel doc text chunk_size chunk_overlap st1 = (Ok r, st1)) /\
  (openai_ready cfg = false ->
   process_document cfg ext2 fuel doc text chunk_size chunk_overlap st1 = (Ok r, st1)).
Proof.
  intros Hmem Hrun Hstatus.
  destruct (process_document_success cfg ext1 Hmem _ _ _ _ _ _ _ _ Hrun Hstatus)
    as (chunks & Hchunks & Hdc & Hrest).
  pose proof (process_document_run cfg ext2 Hmem fuel doc text chunk_size chunk_overlap
                st1 chunks Hchunks) as Hagain.
  assert (Hnd : NoDup (map fst (enumerate chunks)))
    by (rewrite enumerate_fst; apply seq_NoDup).
  assert (Hkeys : NoDup (map fst (chunk_writes doc (enumerate chunks))))
    by (rewrite chunk_writes_keys; now apply chunk_ids_NoDup).
  assert (Hcw : Dict.set_all (chunk_writes doc (enumerate chunks)) (document_chunks st1)
                = document_chunks st1).
  { rewrite Hdc. now apply set_all_idempotent. }
  assert (Hsame : forall embs,
             (if openai_ready cfg
              then embedded cfg ext1 (enumerate chunks) embs /\
                   embedded cfg ext2 (enumerate chunks) embs
              else True) ->
             process_document cfg ext2 fuel doc text chunk_size chunk_overlap st1
             = (Ok r, st1)).
  { intros embs Hembs. destruct (openai_ready cfg).
    - destruct Hembs as (Hembs1 & Hembs2).
      destruct Hrest as (embs' & Hembs' & Hde & ->).
      assert (embs' = embs) as ->.
      { clear - Hembs' Hembs1. revert embs Hembs1.
        induction Hembs' as [|ic e items embs' He _ IH]; intros embs Hembs1;
          inversion Hembs1; subst; [reflexivity|].
        f_equal; [congruence|now apply IH]. }
      rewrite (Hagain embs Hembs2). f_equal.
      destruct (embedded_keys_NoDup cfg ext1 doc _ _ Hembs1 Hnd) as (Hk & Hids).
      rewrite Hcw. rewrite Hde at 1.
      rewrite set_all_idempotent by (now rewrite Hk).
      rewrite <- Hde. now destruct st1.
    - destruct Hrest as (Hde & ->). rewrite Hagain. f_equal.
      rewrite Hcw. now destruct st1. }
  split; [|split].
  - unfold process_document, mtry, process_document_body, mbind, lift, mret.
    rewrite Hchunks. cbn beta iota.
    destruct (HAS_OPENAI cfg && truthy_opt (OPENAI_API_KEY cfg)).
    + destruct (embed_and_store cfg ext2 doc (enumerate chunks) [] st1) as [o st'] eqn:Hstore.
      destruct (embed_and_store_chunks_prefix cfg ext2 doc _ _ _ _ _ Hmem Hstore)
        as [n Hn].
      assert (Hst' : document_chunks st' = document_chunks st1).
      { rewrite Hn. apply set_all_present. intros k v Hin.
        apply chunk_writes_firstn_in in Hin. rewrite Hdc. now apply set_all_get. }
      destruct o; exact Hst'.
    + rewrite store_plain_run. cbn [snd document_chunks]. exact Hcw.
  - intros Hagree. destruct (openai_ready cfg) eqn:Hready.
    + destruct Hrest as (embs & Hembs & Hde & Hr). apply (Hsame embs).
      split; [exact Hembs|]. apply (embedded_agree cfg ext1 ext2); [exact Hembs|].
      intros ic Hic. apply (Hagree chunks); [exact Hchunks|now apply enumerate_snd_in].
    + now apply (Hsame []).
  - intros Hkw. rewrite Hkw in Hsame. now apply (Hsame []).
Qed.

Lemma process_document_idempotent_witness :
  snd (process_document openai_cfg answering 10 "d" "a b c d e" 2 1
         (snd (process_document openai_cfg answering 10 "d" "a b c d e" 2 1 init)))
  = snd (process_document openai_cfg answering 10 "d" "a b c d e" 2 1 init).
Proof.
  destruct (process_document openai_cfg answering 10 "d" "a b c d e" 2 1 init)
    as [o st1] eqn:Hrun.
  assert (Ho : o = Ok (ProcessSuccess "d" 5
                         (map (chunk_id_of "d") [0; 1; 2; 3; 4]) None)).
  { vm_compute in Hrun. inversion Hrun. reflexivity. }
  subst o. cbn [snd].
  destruct (process_document_idempotent openai_cfg answering answering 10 "d" "a b c d e" 2 1
              init st1 _ eq_refl Hrun eq_refl) as (_ & Hagree & _).
  rewrite Hagree; [reflexivity|].
  intros chunks c _ _. reflexivity.
Defined.

(** The input of C9 on which the second ingestion changes the embedding
    store: the embedding service answers with another vector the second
    time. *)
Lemma process_document_idempotent_counterexample :
  supabase_ready openai_cfg = false /\
  fst (process_document openai_cfg answering 1 "d" "hi" 500 100 init)
  = Ok (ProcessSuccess "d" 1 [chunk_id_of "d" 0] None) /\
  fst (process_document openai_cfg answering_other 1 "d" "hi" 500 100
         (snd (process_document openai_cfg answering 1 "d" "hi" 500 100 init)))
  = Ok (ProcessSuccess "d" 1 [chunk_id_of "d" 0] None) /\
  document_embeddings
    (snd (process_document openai_cfg answering 1 "d" "hi" 500 100 init))
  = [(chunk_id_of "d" 0, [1%R])] /\
  document_embeddings
    (snd (process_document openai_cfg answering_other 1 "d" "hi" 500 100
            (snd (process_document openai_cfg answering 1 "d" "hi" 500 100 init))))
  = [(chunk_id_of "d" 0, [2%R])] /\
  [(chunk_id_of "d" 0, [2%R])] <> [(chunk_id_of "d" 0, [1%R])].
Proof.
  do 5 (split; [reflexivity|]).
  intros H. inversion H as [Hv]. apply eq_IZR in Hv. discriminate.
Qed.

(** *** The stable descending sort *)

Lemma firstn_incl {A : Type} (n : nat) (l : list A) (y : A) :
  In y (firstn n l) -> In y l.
Proof.
  intros Hy. rewrite <- (firstn_skipn n l). apply in_or_app. now left.
Qed.



Lemma insert_desc_In {A K : Type} (key : A -> K) (gtb : K -> K -> bool)
      (x y : A) (l : list A) :
  In y (insert_desc key gtb x l) <-> y = x \/ In y l.
Proof.
  induction l as [|z l IH]; simpl.
  - intuition.
  - destruct (gtb (key z) (key x)); simpl; rewrite ?IH; intuition.
Qed.

Lemma sort_desc_In {A K : Type} (key : A -> K) (gtb : K -> K -> bool)
      (y : A) (l : list A) :
  In y (sort_desc key gtb l) <-> In y l.
Proof.
  induction l as [|x l IH]; simpl.
  - reflexivity.
  - rewrite insert_desc_In, IH. intuition.
Qed.

Section StableSortFacts.
Context {A K : Type}.
Variable key : A -> K.
Variable pos : A -> nat.
Variable lt : K -> K -> Prop.
Variable gtb : K -> K -> bool.
Hypothesis gtb_spec : forall x y, gtb x y = true <-> lt y x.
Hypothesis lt_trans : forall x y z, lt x y -> lt y z -> lt x z.
Hypothesis lt_total : forall x y, lt x y \/ x = y \/ lt y x.



End StableSortFacts.





(** *** The order of the retrieved chunks *)

Section RetrievalOrder.
Variable st : Store.
Hypothesis keys_distinct : NoDup (Dict.keys (document_chunks st)).

Lemma lookup_chunk_in (chunk_id : string) (c : Chunk) :
  In (chunk_id, c) (document_chunks st) -> lookup_chunk st chunk_id = c.
Proof.
  intros Hin. unfold lookup_chunk.
  now rewrite (dict_get_in chunk_id c _ keys_distinct Hin).
Qed.

Lemma chunk_data_of_present (ids : list string) :
  (forall k, In k ids -> exists c, In (k, c) (document_chunks st)) ->
  chunk_data_of st ids = Ok (map (fun k => mkChunkData (lookup_chunk st k) k) ids).
Proof.
  induction ids as [|k ids IH]; intros Hall; cbn [chunk_data_of map].
  - reflexivity.
  - destruct (Hall k (or_introl eq_refl)) as [c Hc].
    rewrite (lookup_chunk_in k c Hc).
    rewrite (dict_get_in k c _ keys_distinct Hc).
    rewrite IH by (intros k' Hk'; apply Hall; now right).
    reflexivity.
Qed.


Lemma chunks_of_in (doc : string) (kv : string * Chunk) :
  In kv (chunks_of st doc) <->
  In kv (document_chunks st) /\ document_id (snd kv) = doc.
Proof.
  unfold chunks_of, Dict.items. rewrite filter_In.
  now rewrite String.eqb_eq.
Qed.


(** Vector mode: the similarities are computed for chunks of the document
    with an embedding, in the order of the store. *)
Lemma similarities_of_sound (qe : vector) (items : list (string * Chunk)) (doc : string)
      (sims : list (string * R)) :
  similarities_of st qe items doc = Ok sims ->
  forall p, In p sims ->
    exists c e, In (fst p, c) items /\ document_id c = doc /\
                Dict.get (fst p) (document_embeddings st) = Some e /\
                _cosine_similarity qe e = Ok (snd p).
Proof.
  revert sims. induction items as [|[k c] items IH]; intros sims; cbn [similarities_of].
  - intros H; inversion H. intros p [].
  - destruct (String.eqb_spec (document_id c) doc) as [Hdoc|_].
    2: { intros H p Hp. destruct (IH sims H p Hp) as (c' & e & Hin & Hrest).
         exists c', e. split; [now right|exact Hrest]. }
    destruct (Dict.get k (document_embeddings st)) as [emb|] eqn:Hemb.
    2: { intros H p Hp. destruct (IH sims H p Hp) as (c' & e & Hin & Hrest).
         exists c', e. split; [now right|exact Hrest]. }
    destruct (_cosine_similarity qe emb) as [s| |] eqn:Hcos; cbn [bind]; try discriminate.
    destruct (similarities_of st qe items doc) as [others| |]; cbn [bind]; try discriminate.
    intros H; inversion H; subst sims. intros p [<-|Hp].
    + exists c, emb. cbn [fst snd]. repeat split; auto. now left.
    + destruct (IH others eq_refl p Hp) as (c' & e & Hin & Hrest).
      exists c', e. split; [now right|exact Hrest].
Qed.



End RetrievalOrder.


(** *** The store after one ingestion *)





(** Lower case on the code points below 256, as [str.lower()] has it: the
    ASCII and the Latin-1 capitals are folded, the multiplication sign 215
    and the sharp s 223 are not. *)
Lemma lower_ascii_table :
  map (fun n => nat_of_ascii (Py.lower_ascii (ascii_of_nat n)))
      [64; 65; 90; 91; 191; 192; 214; 215; 216; 222; 223; 224]
  = [64; 97; 122; 91; 191; 224; 246; 215; 248; 254; 223; 224].
Proof. reflexivity. Qed.

(** Keyword scores fold the Latin-1 capitals too: in the two chunks [x] and
    capital E acute, the query small e acute matches the second chunk, which
    comes first. *)
Lemma keyword_search_folds_latin1 :
  let text := ("x " ++ String (ascii_of_nat 201) EmptyString)%string in
  let st := snd (process_document keyword_cfg answering 5 "d" text 1 0 init) in
  _retrieve_relevant_chunks keyword_cfg answering st
    (String (ascii_of_nat 233) EmptyString) "d" 3
  = Ok [mkChunkData (mkChunk "d" (String (ascii_of_nat 201) EmptyString) 1)
                    (chunk_id_of "d" 1);
        mkChunkData (mkChunk "d" "x" 0) (chunk_id_of "d" 0)].
Proof. reflexivity. Qed.



(* ================================================================== *)
(** ** Part III: further properties of the code *)

(** *** Words and chunks *)

Lemma string_app_assoc (a b c : string) : ((a ++ b) ++ c = a ++ (b ++ c))%string.
Proof. induction a as [|x a IH]; simpl; [reflexivity|now rewrite IH]. Qed.

Lemma string_app_nil_r (a : string) : (a ++ "" = a)%string.
Proof. induction a as [|x a IH]; simpl; [reflexivity|now rewrite IH]. Qed.

Lemma no_space_app (a b : string) :
  no_space (a ++ b) = no_space a && no_space b.
Proof.
  induction a as [|x a IH]; simpl; [reflexivity|].
  now rewrite IH, andb_assoc.
Qed.

Lemma truthy_str_app_r (a : string) (c : ascii) : truthy_str (a ++ String c "") = true.
Proof. now destruct a. Qed.

Lemma split_from_words (s cur : string) :
  no_space cur = true -> Forall (fun w => is_word w = true) (split_from cur s).
Proof.
  revert cur. induction s as [|c s IH]; intros cur Hcur; simpl.
  - destruct (truthy_str cur) eqn:Ht; constructor; [|constructor].
    unfold is_word. now rewrite Ht, Hcur.
  - destruct (isspace c) eqn:Hc.
    + destruct (truthy_str cur) eqn:Ht; [constructor|]; try now apply IH.
      unfold is_word. now rewrite Ht, Hcur.
    + apply IH. rewrite no_space_app, Hcur. simpl. now rewrite Hc.
Qed.

Lemma split_from_word_prefix (w cur rest : string) :
  no_space w = true ->
  split_from cur (w ++ rest) = split_from (cur ++ w) rest.
Proof.
  revert cur. induction w as [|c w IH]; intros cur Hw; simpl.
  - now rewrite string_app_nil_r.
  - simpl in Hw. apply andb_prop in Hw as [Hc Hw].
    apply negb_true_iff in Hc. rewrite Hc.
    rewrite IH by exact Hw. now rewrite string_app_assoc.
Qed.

(** Joining words with single spaces and splitting again gives the words
    back. *)
Lemma split_join (ws : list string) :
  Forall (fun w => is_word w = true) ws -> split (join " " ws) = ws.
Proof.
  unfold split, join. induction 1 as [|w ws Hw Hws IH]; [reflexivity|].
  unfold is_word in Hw. apply andb_prop in Hw as [Ht Hn].
  cbn [String.concat]. destruct ws as [|w2 ws].
  - rewrite <- (string_app_nil_r w) at 1.
    rewrite split_from_word_prefix by exact Hn. cbn. now rewrite Ht.
  - rewrite split_from_word_prefix by exact Hn. cbn [append split_from].
    replace (isspace " ") with true by reflexivity.
    rewrite Ht. f_equal. exact IH.
Qed.

Lemma split_words (s : string) : Forall (fun w => is_word w = true) (split s).
Proof. now apply split_from_words. Qed.

Lemma window_split (text : string) (size off : Z) :
  split (window (split text) size off) = window_words (split text) size off.
Proof.
  unfold window, window_words. apply split_join.
  apply Forall_forall. intros w Hw.
  apply firstn_incl in Hw.
  assert (Hin : In w (split text)).
  { rewrite <- (firstn_skipn (Z.to_nat off) (split text)). apply in_or_app. now right. }
  pose proof (split_words text) as Hall. rewrite Forall_forall in Hall. now apply Hall.
Qed.

Lemma nth_error_firstn_in {A : Type} (l : list A) (i m : nat) (x : A) :
  nth_error l i = Some x -> i < m -> In x (firstn m l).
Proof.
  revert i m. induction l as [|y l IH]; intros [|i] [|m]; simpl; try discriminate; try lia.
  - intros H _. inversion H. now left.
  - intros H Hm. right. apply (IH i); [exact H|lia].
Qed.

(** X1.  With [0 <= chunk_overlap < chunk_size] the chunker terminates, no
    chunk has more than [chunk_size] words, and no word of the text is lost:
    every word of the text is a word of some chunk. *)
Theorem chunk_document_keeps_every_word (fuel : nat) (text : string)
        (chunk_size chunk_overlap : Z) :
  (0 <= chunk_overlap < chunk_size)%Z ->
  List.length (split text) < fuel ->
  exists chunks,
    _chunk_document fuel text chunk_size chunk_overlap = Ok chunks /\
    Forall (fun c => List.length (split c) <= Z.to_nat chunk_size) chunks /\
    (forall w, In w (split text) -> exists c, In c chunks /\ In w (split c)).
Proof.
  intros Hcfg Hfuel.
  destruct (Z.le_gt_cases (Z.of_nat (List.length (split text))) chunk_size) as [Hshort|Hlong].
  - exists [text]. split; [now apply chunk_document_short|]. split.
    + constructor; [lia|constructor].
    + intros w Hw. exists text. split; [now left|exact Hw].
  - rewrite chunk_document_long by (try lia; exact Hfuel).
    eexists. split; [reflexivity|]. split.
    + apply Forall_forall. intros c Hc. apply in_map_iff in Hc as (off & <- & _).
      rewrite window_split. unfold window_words. apply firstn_le_length.
    + intros w Hw. apply In_nth_error in Hw as [j Hj].
      assert (Hjn : j < List.length (split text)).
      { apply nth_error_Some. congruence. }
      set (step := (chunk_size - chunk_overlap)%Z).
      set (k := Z.to_nat (Z.of_nat j / step)).
      assert (Hstep : (0 < step)%Z) by (unfold step; lia).
      assert (Hk : (Z.of_nat k = Z.of_nat j / step)%Z).
      { unfold k. rewrite Z2Nat.id; [reflexivity|]. apply Z.div_pos; lia. }
      pose proof (Z.div_mod (Z.of_nat j) step ltac:(lia)) as Hdm.
      pose proof (Z.mod_pos_bound (Z.of_nat j) step Hstep) as Hmod.
      rewrite <- Hk in Hdm.
      exists (window (split text) chunk_size (Z.of_nat k * step)). split.
      * apply in_map. apply window_offsets_spec; [exact Hstep|].
        exists k. split; [reflexivity|]. nia.
      * rewrite window_split. unfold window_words.
        apply (nth_error_firstn_in _ (j - Z.to_nat (Z.of_nat k * step))); [|unfold step in *; nia].
        rewrite nth_error_skipn. rewrite <- Hj. f_equal. nia.
Qed.

Lemma chunk_document_keeps_every_word_witness :
  exists chunks,
    _chunk_document 8 "a b c d e f g" 3 1 = Ok chunks /\
    Forall (fun c => List.length (split c) <= 3) chunks /\
    (forall w, In w (split "a b c d e f g") -> exists c, In c chunks /\ In w (split c)).
Proof.
  apply (chunk_document_keeps_every_word 8 "a b c d e f g" 3 1).
  - lia.
  - simpl. lia.
Defined.

Lemma window_offsets_nth (n : nat) (step : Z) (k : nat) (off : Z) :
  nth_error (window_offsets n step) k = Some off -> off = (Z.of_nat k * step)%Z.
Proof.
  unfold window_offsets. rewrite nth_error_map, nth_error_seq.
  destruct (Nat.ltb k _); cbn; intros H; inversion H. reflexivity.
Qed.

(** X2.  Consecutive chunks share [chunk_overlap] words: what is left of a
    chunk after its first [chunk_size - chunk_overlap] words is the beginning
    of the next chunk. *)
Theorem chunk_document_overlap_shared (fuel : nat) (text : string)
        (chunk_size chunk_overlap : Z) :
  (0 <= chunk_overlap < chunk_size)%Z ->
  (chunk_size < Z.of_nat (List.length (split text)))%Z ->
  List.length (split text) < fuel ->
  exists chunks,
    _chunk_document fuel text chunk_size chunk_overlap = Ok chunks /\
    forall k c1 c2,
      nth_error chunks k = Some c1 -> nth_error chunks (S k) = Some c2 ->
      skipn (Z.to_nat (chunk_size - chunk_overlap)) (split c1)
      = firstn (Z.to_nat chunk_overlap) (split c2).
Proof.
  intros Hcfg Hlong Hfuel.
  rewrite chunk_document_long by (try lia; exact Hfuel).
  eexists. split; [reflexivity|].
  intros k c1 c2 H1 H2.
  rewrite nth_error_map in H1, H2.
  destruct (nth_error (window_offsets _ _) k) as [off1|] eqn:Ho1; [|discriminate].
  destruct (nth_error (window_offsets _ _) (S k)) as [off2|] eqn:Ho2; [|discriminate].
  apply window_offsets_nth in Ho1, Ho2. cbn in H1, H2.
  inversion H1; inversion H2; subst c1 c2 off1 off2.
  rewrite !window_split. unfold window_words.
  rewrite skipn_firstn_comm, skipn_skipn, firstn_firstn.
  replace (Z.to_nat chunk_size - Z.to_nat (chunk_size - chunk_overlap))
    with (Z.to_nat chunk_overlap) by lia.
  rewrite Nat.min_l by lia.
  do 2 f_equal. rewrite <- Z2Nat.inj_add by nia. f_equal. lia.
Qed.

Lemma chunk_document_overlap_shared_witness :
  exists chunks,
    _chunk_document 8 "a b c d e f g" 3 1 = Ok chunks /\
    forall k c1 c2,
      nth_error chunks k = Some c1 -> nth_error chunks (S k) = Some c2 ->
      skipn 2 (split c1) = firstn 1 (split c2).
Proof.
  apply (chunk_document_overlap_shared 8 "a b c d e f g" 3 1).
  - lia.
  - simpl. lia.
  - simpl. lia.
Defined.

(** X3.  The number of chunks: one for a text of at most [chunk_size] words
    (also for a text without any word), and otherwise the word count divided
    by the step [chunk_size - chunk_overlap], rounded up. *)
Theorem chunk_document_count (fuel : nat) (text : string) (chunk_size chunk_overlap : Z) :
  (0 <= chunk_overlap < chunk_size)%Z ->
  List.length (split text) < fuel ->
  exists chunks,
    _chunk_document fuel text chunk_size chunk_overlap = Ok chunks /\
    Z.of_nat (List.length chunks) =
    (if Z.of_nat (List.length (split text)) <=? chunk_size then 1
     else (Z.of_nat (List.length (split text)) + (chunk_size - chunk_overlap) - 1)
          / (chunk_size - chunk_overlap))%Z.
Proof.
  intros Hcfg Hfuel.
  destruct (Z.leb_spec (Z.of_nat (List.length (split text))) chunk_size) as [Hshort|Hlong].
  - exists [text]. split; [now apply chunk_document_short|reflexivity].
  - rewrite chunk_document_long by (try lia; exact Hfuel).
    eexists. split; [reflexivity|].
    unfold window_offsets. rewrite !length_map, length_seq.
    apply Z2Nat.id. apply Z.div_pos; lia.
Qed.

Lemma chunk_document_count_witness :
  exists chunks,
    _chunk_document 8 "a b c d e f g" 3 1 = Ok chunks /\
    Z.of_nat (List.length chunks) = 4%Z.
Proof.
  apply (chunk_document_count 8 "a b c d e f g" 3 1).
  - lia.
  - simpl. lia.
Defined.

(** *** Cosine similarity: symmetry and range *)

Section CosineRange.
Local Open Scope R_scope.

Lemma dot_product_comm (v w : vector) : dot_product v w = dot_product w v.
Proof.
  revert w. induction v as [|x v IH]; intros [|y w]; simpl; try reflexivity.
  rewrite IH. ring.
Qed.

Lemma square_le_bound (p q : R) : 0 <= p -> q * q <= p * p -> q <= p.
Proof. intros Hp Hq. nra. Qed.

(** Cauchy-Schwarz on lists. *)
Lemma dot_product_cauchy_schwarz (v w : vector) :
  dot_product v w * dot_product v w <= dot_product v v * dot_product w w.
Proof.
  revert w. induction v as [|x v IH]; intros [|y w]; simpl.
  - lra.
  - lra.
  - pose proof (dot_product_self_nonneg v). nra.
  - specialize (IH w).
    pose proof (dot_product_self_nonneg v) as HA.
    pose proof (dot_product_self_nonneg w) as HB.
    set (d := dot_product v w) in *.
    set (A := dot_product v v) in *.
    set (B := dot_product w w) in *.
    assert (Hcross : 2 * (x * y * d) <= x * x * B + y * y * A).
    { apply square_le_bound.
      - pose proof (Rle_0_sqr x). pose proof (Rle_0_sqr y). unfold Rsqr in *. nra.
      - assert (H1 : (x * y) * (x * y) * (d * d) <= (x * y) * (x * y) * (A * B)).
        { apply Rmult_le_compat_l; [|exact IH].
          pose proof (Rle_0_sqr (x * y)) as H. unfold Rsqr in H. exact H. }
        pose proof (Rle_0_sqr (x * x * B - y * y * A)) as H2. unfold Rsqr in H2.
        nra. }
    nra.
Qed.

(** X4.  The cosine similarity does not depend on the order of its
    arguments, and a similarity that is returned lies between -1 and 1. *)
Theorem cosine_similarity_symmetric_bounded (v w : vector) :
  _cosine_similarity v w = _cosine_similarity w v /\
  (forall c, _cosine_similarity v w = Ok c -> -1 <= c <= 1).
Proof.
  split.
  - unfold _cosine_similarity, np_dot.
    rewrite (Nat.eqb_sym (List.length w) (List.length v)).
    destruct (Nat.eqb (List.length v) (List.length w)); [|reflexivity].
    cbn [bind]. rewrite (orb_comm (is_zero (norm w))).
    destruct (is_zero (norm v) || is_zero (norm w)); [reflexivity|].
    now rewrite dot_product_comm, (Rmult_comm (norm w)).
  - intros c. unfold _cosine_similarity, np_dot.
    destruct (Nat.eqb (List.length v) (List.length w)); [|discriminate].
    cbn [bind].
    destruct (is_zero (norm v)) eqn:Hv; cbn [orb].
    { intros H; inversion H. lra. }
    destruct (is_zero (norm w)) eqn:Hw.
    { intros H; inversion H. lra. }
    intros H; inversion H; subst c; clear H.
    apply is_zero_false in Hv, Hw.
    assert (Hnv : 0 < norm v).
    { unfold norm in *. pose proof (sqrt_pos (dot_product v v)). lra. }
    assert (Hnw : 0 < norm w).
    { unfold norm in *. pose proof (sqrt_pos (dot_product w w)). lra. }
    assert (Hsv : norm v * norm v = dot_product v v)
      by (apply sqrt_sqrt, dot_product_self_nonneg).
    assert (Hsw : norm w * norm w = dot_product w w)
      by (apply sqrt_sqrt, dot_product_self_nonneg).
    pose proof (dot_product_cauchy_schwarz v w) as Hcs.
    assert (Hpos : 0 < norm v * norm w) by now apply Rmult_lt_0_compat.
    assert (Hsq : dot_product v w * dot_product v w
                  <= (norm v * norm w) * (norm v * norm w)) by nra.
    assert (Hup : dot_product v w <= norm v * norm w)
      by (apply square_le_bound; lra).
    assert (Hlo : - dot_product v w <= norm v * norm w)
      by (apply square_le_bound; lra).
    split.
    + apply (Rmult_le_reg_r (norm v * norm w)); [exact Hpos|].
      unfold Rdiv. rewrite Rmult_assoc, Rinv_l by lra. lra.
    + apply (Rmult_le_reg_r (norm v * norm w)); [exact Hpos|].
      unfold Rdiv. rewrite Rmult_assoc, Rinv_l by lra. lra.
Qed.

Lemma cosine_similarity_symmetric_bounded_witness :
  -1 <= 1 <= 1 /\ _cosine_similarity [3; 4] [0; 1] = _cosine_similarity [0; 1] [3; 4].
Proof.
  destruct (cosine_similarity_symmetric_bounded [3; 4] [3; 4]) as (_ & Hrange).
  destruct (cosine_similarity_symmetric_bounded [3; 4] [0; 1]) as (Hsym & _).
  split; [|exact Hsym].
  apply Hrange. apply cosine_similarity_self. apply norm_nonzero.
  exists 3. split; [now left|lra].
Defined.

End CosineRange.

(** *** What ingestion leaves in the store *)

Lemma enumerate_from_nth {A : Type} (l : list A) (n i : nat) (x : A) :
  nth_error l i = Some x -> nth_error (combine (seq n (List.length l)) l) i = Some (n + i, x).
Proof.
  revert n i. induction l as [|y l IH]; intros n [|i]; simpl; try discriminate.
  - intros H. inversion H. now rewrite Nat.add_0_r.
  - intros H. rewrite (IH (S n) i H). f_equal. f_equal. lia.
Qed.

Lemma enumerate_nth {A : Type} (l : list A) (i : nat) (x : A) :
  nth_error l i = Some x -> In (i, x) (enumerate l).
Proof.
  intros H. apply (nth_error_In _ i). unfold enumerate.
  now rewrite (enumerate_from_nth l 0 i x H).
Qed.

Lemma ids_of_enumerate {A : Type} (doc : string) (chunks : list string) :
  ids_of doc (enumerate chunks) = map (chunk_id_of doc) (seq 0 (List.length chunks)).
Proof.
  unfold ids_of. rewrite <- (map_map fst (chunk_id_of doc)). now rewrite enumerate_fst.
Qed.

Lemma embedded_in (cfg : Config) (ext : Services) (doc : string)
      (items : list (nat * string)) (embs : list vector) (ic : nat * string) :
  embedded cfg ext items embs -> In ic items ->
  exists e, _generate_embedding_openai cfg ext (snd ic) = Ok e /\
            In (chunk_id_of doc (fst ic), e) (combine (ids_of doc items) embs).
Proof.
  induction 1 as [|x e items embs Hx _ IH]; intros Hin; [destruct Hin|].
  destruct Hin as [->|Hin].
  - exists e. split; [exact Hx|now left].
  - destruct (IH Hin) as (e' & He' & Hin'). exists e'. split; [exact He'|now right].
Qed.

(** X5.  After a successful ingestion without a durable backend the response
    counts the chunks and lists their ids [document_id_chunk_0],
    [document_id_chunk_1], ... in order, and each chunk can be looked up under
    its id with its text and index; in vector mode its embedding is stored
    under the same id. *)
Theorem process_document_stores_chunks (cfg : Config) (ext : Services) (fuel : nat)
        (doc text : string) (chunk_size chunk_overlap : Z) (st st1 : Store) (r : Response) :
  supabase_ready cfg = false ->
  process_document cfg ext fuel doc text chunk_size chunk_overlap st = (Ok r, st1) ->
  status r = Some "success" ->
  exists chunks,
    _chunk_document fuel text chunk_size chunk_overlap = Ok chunks /\
    (exists warning,
       r = ProcessSuccess doc (List.length chunks)
             (map (chunk_id_of doc) (seq 0 (List.length chunks))) warning) /\
    (forall i c, nth_error chunks i = Some c ->
       Dict.get (chunk_id_of doc i) (document_chunks st1) = Some (mkChunk doc c i) /\
       (openai_ready cfg = true ->
        exists e, _generate_embedding_openai cfg ext c = Ok e /\
                  Dict.get (chunk_id_of doc i) (document_embeddings st1) = Some e)).
Proof.
  intros Hmem Hrun Hstatus.
  destruct (process_document_success cfg ext Hmem _ _ _ _ _ _ _ _ Hrun Hstatus)
    as (chunks & Hchunks & Hdc & Hrest).
  assert (Hnd : NoDup (map fst (enumerate chunks)))
    by (rewrite enumerate_fst; apply seq_NoDup).
  exists chunks. split; [exact Hchunks|]. split.
  - rewrite <- (ids_of_enumerate (A := string)).
    destruct (openai_ready cfg); [destruct Hrest as (_ & _ & _ & ->)|destruct Hrest as (_ & ->)];
      eauto.
  - intros i c Hi. pose proof (enumerate_nth chunks i c Hi) as Hin. split.
    + rewrite Hdc. apply set_all_get.
      * rewrite chunk_writes_keys. now apply chunk_ids_NoDup.
      * unfold chunk_writes. apply in_map_iff. now exists (i, c).
    + intros Hready. rewrite Hready in Hrest.
      destruct Hrest as (embs & Hembs & Hde & _).
      destruct (embedded_in cfg ext doc _ _ (i, c) Hembs Hin) as (e & He & Hine).
      exists e. split; [exact He|]. rewrite Hde. apply set_all_get; [|exact Hine].
      destruct (embedded_keys_NoDup cfg ext doc _ _ Hembs Hnd) as (-> & Hids).
      exact Hids.
Qed.

Lemma process_document_stores_chunks_witness :
  Dict.get (chunk_id_of "d" 2)
    (document_chunks (snd (process_document openai_cfg answering 10 "d" "a b c d e" 2 1 init)))
  = Some (mkChunk "d" "c d" 2).
Proof.
  destruct (process_document openai_cfg answering 10 "d" "a b c d e" 2 1 init)
    as [o st1] eqn:Hrun.
  assert (Ho : o = Ok (ProcessSuccess "d" 5 (map (chunk_id_of "d") [0; 1; 2; 3; 4]) None)).
  { vm_compute in Hrun. inversion Hrun. reflexivity. }
  subst o.
  destruct (process_document_stores_chunks openai_cfg answering 10 "d" "a b c d e" 2 1
              init st1 _ eq_refl Hrun eq_refl) as (chunks & Hchunks & _ & Hget).
  vm_compute in Hchunks. inversion Hchunks; subst chunks.
  exact (proj1 (Hget 2 "c d" eq_refl)).
Defined.

(** The stores after the two loops differ from the stores before only at the
    chunk ids of the document. *)
Lemma embed_and_store_frame (cfg : Config) (ext : Services) (doc : string)
      (items : list (nat * string)) (chunk_ids : list string) (st : Store) (k : string) :
  (forall i, k <> chunk_id_of doc i) ->
  forall o st1, embed_and_store cfg ext doc items chunk_ids st = (o, st1) ->
  Dict.get k (document_chunks st1) = Dict.get k (document_chunks st) /\
  Dict.get k (document_embeddings st1) = Dict.get k (document_embeddings st).
Proof.
  intros Hk. revert chunk_ids st.
  induction items as [|[i c] items IH]; intros chunk_ids st o st1; cbn [embed_and_store].
  - intros H. inversion H. now split.
  - unfold mbind, lift, modify.
    destruct (_generate_embedding_openai cfg ext c) as [e| |];
      [|intros H; inversion H; now split..].
    destruct (HAS_SUPABASE cfg && supabase_client cfg).
    + destruct (_store_chunk_in_supabase cfg ext (chunk_id_of doc i) doc c e) as [[]| |];
        [apply IH|intros H; inversion H; now split..].
    + intros H. apply IH in H as (Hc & He). rewrite Hc, He.
      cbn [put_embedding put_chunk document_chunks document_embeddings].
      split; apply dict_get_set_other; apply Hk.
Qed.

Lemma store_plain_frame (doc : string) (items : list (nat * string))
      (chunk_ids : list string) (st : Store) (k : string) :
  (forall i, k <> chunk_id_of doc i) ->
  let st1 := snd (store_plain doc items chunk_ids st) in
  Dict.get k (document_chunks st1) = Dict.get k (document_chunks st) /\
  Dict.get k (document_embeddings st1) = Dict.get k (document_embeddings st).
Proof.
  intros Hk. rewrite store_plain_run. cbn [snd document_chunks document_embeddings].
  split; [|reflexivity].
  apply set_all_get_other. rewrite chunk_writes_keys.
  intros Hin. apply in_map_iff in Hin as (ic & Heq & _). now apply (Hk (fst ic)).
Qed.

(** X6.  Whatever its outcome, an ingestion changes the two stores only
    under the chunk ids of the ingested document: what is stored under any
    other key stays as it was. *)
Theorem process_document_frame (cfg : Config) (ext : Services) (fuel : nat)
        (doc text : string) (chunk_size chunk_overlap : Z) (st : Store) (k : string) :
  (forall i, k <> chunk_id_of doc i) ->
  let st1 := snd (process_document cfg ext fuel doc text chunk_size chunk_overlap st) in
  Dict.get k (document_chunks st1) = Dict.get k (document_chunks st) /\
  Dict.get k (document_embeddings st1) = Dict.get k (document_embeddings st).
Proof.
  intros Hk. cbn zeta.
  unfold process_document, mtry, process_document_body, mbind, lift, mret.
  destruct (_chunk_document fuel text chunk_size chunk_overlap) as [chunks| |];
    cbn [snd]; [|now split..].
  destruct (HAS_OPENAI cfg && truthy_opt (OPENAI_API_KEY cfg)).
  - pose proof (embed_and_store_frame cfg ext doc (enumerate chunks) [] st k Hk) as Hf.
    destruct (embed_and_store cfg ext doc (enumerate chunks) [] st) as [[ids| |] st'];
      exact (Hf _ _ eq_refl).
  - pose proof (store_plain_frame doc (enumerate chunks) [] st k Hk) as Hf.
    cbn zeta in Hf.
    destruct (store_plain doc (enumerate chunks) [] st) as [[ids| |] st']; exact Hf.
Qed.

Lemma chunk_id_of_other_doc (i : nat) : chunk_id_of "d" 0 <> chunk_id_of "e" i.
Proof. unfold chunk_id_of. cbn. discriminate. Qed.

Lemma process_document_frame_witness :
  Dict.get (chunk_id_of "d" 0)
    (document_chunks (snd (process_document keyword_cfg answering 10 "e" "x y z" 2 1
                             one_chunk_store)))
  = Some (mkChunk "d" "hello world" 0).
Proof.
  destruct (process_document_frame keyword_cfg answering 10 "e" "x y z" 2 1
              one_chunk_store (chunk_id_of "d" 0) chunk_id_of_other_doc) as (Hc & _).
  rewrite Hc. reflexivity.
Defined.

Lemma enumerate_from_app {A : Type} (a b : list A) (n : nat) :
  combine (seq n (List.length (a ++ b))) (a ++ b) =
  combine (seq n (List.length a)) a ++ combine (seq (n + List.length a) (List.length b)) b.
Proof.
  revert n. induction a as [|x a IH]; intros n; simpl.
  - now rewrite Nat.add_0_r.
  - rewrite IH. replace (n + S (List.length a)) with (S n + List.length a) by lia.
    reflexivity.
Qed.

Lemma enumerate_app_cons {A : Type} (pre : list A) (c : A) (post : list A) :
  exists rest, enumerate (pre ++ c :: post) = enumerate pre ++ (List.length pre, c) :: rest.
Proof.
  unfold enumerate. rewrite enumerate_from_app. simpl. eauto.
Qed.

Lemma embed_and_store_fail (cfg : Config) (ext : Services) (doc : string)
      (items : list (nat * string)) (embs : list vector)
      (x : nat * string) (rest : list (nat * string)) (e : exn) :
  supabase_ready cfg = false ->
  embedded cfg ext items embs ->
  _generate_embedding_openai cfg ext (snd x) = Raise e ->
  forall chunk_ids st,
    embed_and_store cfg ext doc (items ++ x :: rest) chunk_ids st =
    (Raise e,
     {| document_chunks := Dict.set_all (chunk_writes doc items) (document_chunks st);
        document_embeddings :=
          Dict.set_all (combine (ids_of doc items) embs) (document_embeddings st) |}).
Proof.
  unfold supabase_ready. intros Hmem Hembs Hx.
  induction Hembs as [|[i c] emb items embs He _ IH]; intros chunk_ids st.
  - destruct x as [i c]. cbn [app embed_and_store]. unfold mbind, lift.
    cbn [snd] in Hx. rewrite Hx. cbn. now destruct st.
  - cbn [app embed_and_store]. unfold mbind, lift, modify.
    cbn [snd] in He. rewrite He, Hmem. cbn beta iota.
    rewrite IH. reflexivity.
Qed.

(** X7.  There is no rollback: when the embedding call raises for one chunk
    in vector mode, [process_document] reports the error, and the chunks that
    came before it stay in the store under their ids. *)
Theorem process_document_partial_failure (cfg : Config) (ext : Services) (fuel : nat)
        (doc text : string) (chunk_size chunk_overlap : Z) (st : Store)
        (pre : list string) (c : string) (post : list string)
        (embs : list vector) (e : exn) :
  supabase_ready cfg = false ->
  openai_ready cfg = true ->
  _chunk_document fuel text chunk_size chunk_overlap = Ok (pre ++ c :: post) ->
  embedded cfg ext (enumerate pre) embs ->
  _generate_embedding_openai cfg ext c = Raise e ->
  exists st1,
    process_document cfg ext fuel doc text chunk_size chunk_overlap st
    = (Ok (ErrorResponse (str_exn e)), st1) /\
    forall i c', nth_error pre i = Some c' ->
                 Dict.get (chunk_id_of doc i) (document_chunks st1) = Some (mkChunk doc c' i).
Proof.
  intros Hmem Hready Hchunks Hembs Hc.
  destruct (enumerate_app_cons pre c post) as [rest Henum].
  unfold process_document, mtry, process_document_body, mbind, lift, mret.
  rewrite Hchunks. cbn beta iota. fold (openai_ready cfg). rewrite Hready, Henum.
  rewrite (embed_and_store_fail cfg ext doc _ embs (List.length pre, c) rest e
             Hmem Hembs Hc).
  eexists. split; [reflexivity|].
  intros i c' Hi. cbn [document_chunks]. apply set_all_get.
  - rewrite chunk_writes_keys. apply chunk_ids_NoDup.
    rewrite enumerate_fst. apply seq_NoDup.
  - unfold chunk_writes. apply in_map_iff. exists (i, c'). split; [reflexivity|].
    now apply enumerate_nth.
Qed.

Lemma process_document_partial_failure_witness :
  exists st1,
    process_document openai_cfg rate_limited 10 "d" "a b c d e" 2 1 init
    = (Ok (ErrorResponse "rate limit"), st1) /\
    Dict.get (chunk_id_of "d" 1) (document_chunks st1) = Some (mkChunk "d" "b c" 1).
Proof.
  destruct (process_document_partial_failure openai_cfg rate_limited 10 "d" "a b c d e" 2 1
              init ["a b"; "b c"] "c d" ["d e"; "e"] [[1%R]; [1%R]]
              (ExternalError "rate limit"))
    as (st1 & Hrun & Hget); try reflexivity.
  - repeat constructor.
  - exists st1. split; [exact Hrun|]. now apply (Hget 1 "b c").
Defined.

Lemma embed_and_store_supabase (cfg : Config) (ext : Services) (doc : string)
      (items : list (nat * string)) (chunk_ids : list string) (st : Store) :
  supabase_ready cfg = true ->
  forall o st1, embed_and_store cfg ext doc items chunk_ids st = (o, st1) -> st1 = st.
Proof.
  unfold supabase_ready. intros Hsupa. revert chunk_ids st.
  induction items as [|[i c] items IH]; intros chunk_ids st o st1; cbn [embed_and_store].
  - intros H. now inversion H.
  - unfold mbind, lift. rewrite Hsupa.
    destruct (_generate_embedding_openai cfg ext c) as [e| |];
      [|intros H; now inversion H..].
    destruct (_store_chunk_in_supabase cfg ext (chunk_id_of doc i) doc c e) as [[]| |];
      [apply IH|intros H; now inversion H..].
Qed.

Lemma process_document_supabase_store (cfg : Config) (ext : Services) (fuel : nat)
      (doc text : string) (size overlap : Z) (st : Store) :
  openai_ready cfg = true -> supabase_ready cfg = true ->
  snd (process_document cfg ext fuel doc text size overlap st) = st.
Proof.
  intros Hready Hsupa.
  unfold process_document, mtry, process_document_body, mbind, lift, mret.
  fold (openai_ready cfg). rewrite Hready.
  destruct (_chunk_document fuel text size overlap) as [chunks| |]; try reflexivity.
  pose proof (embed_and_store_supabase cfg ext doc (enumerate chunks) [] st Hsupa) as Hs.
  destruct (embed_and_store cfg ext doc (enumerate chunks) [] st) as [[ids| |] st'];
    cbn [snd]; exact (Hs _ _ eq_refl).
Qed.

(** X8.  With embeddings and the durable backend both configured, ingestion
    writes to the backend only: the in-memory stores of the processor are left
    exactly as they were, whatever the outcome. *)
Theorem process_document_supabase_leaves_memory (cfg : Config) (ext : Services) (fuel : nat)
        (doc text : string) (chunk_size chunk_overlap : Z) (st : Store) :
  openai_ready cfg = true ->
  supabase_ready cfg = true ->
  snd (process_document cfg ext fuel doc text chunk_size chunk_overlap st) = st.
Proof. apply process_document_supabase_store. Qed.

Lemma process_document_supabase_leaves_memory_witness :
  snd (process_document supabase_cfg answering 10 "d" "a b c d e" 2 1 init) = init.
Proof.
  apply (process_document_supabase_leaves_memory supabase_cfg answering 10 "d" "a b c d e" 2 1
           init); reflexivity.
Defined.

(** X9.  The in-memory fallback of retrieval is empty in that configuration:
    after any ingestion into a fresh processor, when the similarity search of
    the backend raises, retrieval finds nothing and the question is answered
    with the error for a document without content. *)
Theorem supabase_outage_finds_nothing (cfg : Config) (ext : Services) (fuel : nat)
        (doc text : string) (chunk_size chunk_overlap : Z)
        (question model : string) (history : option (list Message))
        (qe : vector) (e : exn) :
  openai_ready cfg = true ->
  supabase_ready cfg = true ->
  openai_embeddings_create ext question = Ok qe ->
  supabase_match_document_chunks ext qe doc 3 = Raise e ->
  let st := snd (process_document cfg ext fuel doc text chunk_size chunk_overlap init) in
  _retrieve_relevant_chunks cfg ext st question doc 3 = Ok [] /\
  answer_question cfg ext st question doc model history = Ok (ErrorResponse no_relevant_content).
Proof.
  intros Hready Hsupa Hqe Hrpc. cbn zeta.
  rewrite process_document_supabase_store by assumption.
  assert (Hretr : _retrieve_relevant_chunks cfg ext init question doc 3 = Ok []).
  { unfold _retrieve_relevant_chunks. fold (openai_ready cfg). fold (supabase_ready cfg).
    rewrite Hready, Hsupa, generate_embedding_openai_ready, Hqe by exact Hready.
    cbn [bind]. now rewrite Hrpc. }
  split; [exact Hretr|].
  unfold answer_question. now rewrite Hretr.
Qed.

Lemma supabase_outage_finds_nothing_witness :
  answer_question supabase_cfg rate_limited
    (snd (process_document supabase_cfg rate_limited 10 "d" "a b" 2 1 init))
    "what" "d" "openai" None
  = Ok (ErrorResponse no_relevant_content).
Proof.
  apply (supabase_outage_finds_nothing supabase_cfg rate_limited 10 "d" "a b" 2 1
           "what" "openai" None [1%R] (ExternalError "rpc down")); reflexivity.
Defined.

(** *** What retrieval returns *)

Lemma insert_desc_perm {A K : Type} (key : A -> K) (gtb : K -> K -> bool)
      (x : A) (l : list A) :
  Permutation (insert_desc key gtb x l) (x :: l).
Proof.
  induction l as [|y l IH]; simpl.
  - reflexivity.
  - destruct (gtb (key y) (key x)); [|reflexivity].
    rewrite IH. apply perm_swap.
Qed.

Lemma sort_desc_perm {A K : Type} (key : A -> K) (gtb : K -> K -> bool) (l : list A) :
  Permutation (sort_desc key gtb l) l.
Proof.
  induction l as [|x l IH]; simpl.
  - reflexivity.
  - rewrite insert_desc_perm. now apply perm_skip.
Qed.

Lemma NoDup_firstn {A : Type} (n : nat) (l : list A) : NoDup l -> NoDup (firstn n l).
Proof.
  intros Hnd. rewrite <- (firstn_skipn n l) in Hnd. now apply NoDup_app_remove_r in Hnd.
Qed.

Lemma slice_to_length {A : Type} (l : list A) (hi : Z) :
  List.length (slice_to l hi) <= List.length l /\
  ((0 <= hi)%Z -> List.length (slice_to l hi) = Nat.min (Z.to_nat hi) (List.length l)).
Proof.
  unfold slice_to, slice_bound. rewrite length_firstn. split; [lia|].
  intros Hhi. destruct (Z.ltb_spec hi 0); lia.
Qed.

Lemma chunks_of_keys_NoDup (st : Store) (doc : string) :
  NoDup (Dict.keys (document_chunks st)) -> NoDup (map fst (chunks_of st doc)).
Proof.
  unfold chunks_of, Dict.items, Dict.keys.
  induction (document_chunks st) as [|[k c] items IH]; simpl; intros Hnd.
  - constructor.
  - inversion Hnd as [|? ? Hk Hnd']; subst.
    destruct (String.eqb (document_id c) doc); simpl; [|now apply IH].
    constructor; [|now apply IH].
    intros Hin. apply Hk. apply in_map_iff in Hin as (kv & Hkv & Hin).
    apply filter_In in Hin as [Hin _]. apply in_map_iff. now exists kv.
Qed.

Lemma similarities_of_keys (st : Store) (qe : vector) (items : list (string * Chunk))
      (doc : string) (sims : list (string * R)) :
  similarities_of st qe items doc = Ok sims ->
  NoDup (map fst items) ->
  NoDup (map fst sims) /\
  List.length sims
  <= List.length (filter (fun kv => String.eqb (document_id (snd kv)) doc) items).
Proof.
  revert sims. induction items as [|[k c] items IH]; intros sims;
    cbn [similarities_of filter map fst snd].
  - intros H _. inversion H. split; [constructor|reflexivity].
  - intros Hsims Hnd. inversion Hnd as [|? ? Hk Hnd']; subst.
    destruct (String.eqb (document_id c) doc); [|now apply IH].
    destruct (Dict.get k (document_embeddings st)) as [emb|].
    2: { destruct (IH sims Hsims Hnd') as (H1 & H2). split; [exact H1|simpl; lia]. }
    destruct (_cosine_similarity qe emb) as [s| |]; cbn [bind] in Hsims; try discriminate.
    destruct (similarities_of st qe items doc) as [others| |] eqn:Hothers;
      cbn [bind] in Hsims; try discriminate.
    inversion Hsims; subst sims.
    destruct (IH others eq_refl Hnd') as (H1 & H2).
    split; [|simpl; lia]. cbn [map fst]. constructor; [|exact H1].
    intros Hin. apply Hk. apply in_map_iff in Hin as (p & Hp & Hin).
    destruct (similarities_of_sound st qe items doc others Hothers p Hin)
      as (c' & e & Hin' & _).
    apply in_map_iff. exists (fst p, c'). split; [exact Hp|exact Hin'].
Qed.

(** The common end of both modes again: which chunks come back. *)
Lemma top_chunks_sound (st : Store) (doc : string) {S : Type} (gtb : S -> S -> bool)
      (scored : list (string * S)) (top_k : Z) (results : list ChunkData) :
  NoDup (Dict.keys (document_chunks st)) ->
  (forall p, In p scored -> exists c, In (fst p, c) (chunks_of st doc)) ->
  NoDup (map fst scored) ->
  chunk_data_of st (map fst (slice_to (sort_desc snd gtb scored) top_k)) = Ok results ->
  (forall cd, In cd results ->
     document_id (chunk cd) = doc /\ In (id cd, chunk cd) (document_chunks st)) /\
  NoDup (map id results) /\
  List.length results <= List.length scored /\
  ((0 <= top_k)%Z ->
   List.length results = Nat.min (Z.to_nat top_k) (List.length scored)).
Proof.
  intros Hkeys Hscored Hnd Hres.
  set (top := slice_to (sort_desc snd gtb scored) top_k) in *.
  assert (Htop : forall p, In p top -> In p scored).
  { intros p Hp. apply firstn_incl in Hp. now apply sort_desc_In in Hp. }
  rewrite (chunk_data_of_present st Hkeys) in Hres.
  2: { intros k Hk. apply in_map_iff in Hk as (p & <- & Hp).
       destruct (Hscored p (Htop p Hp)) as (c & Hc). apply chunks_of_in in Hc as [Hc _].
       eauto. }
  inversion Hres; subst results; clear Hres.
  assert (Hlen : List.length (sort_desc snd gtb scored) = List.length scored)
    by (apply Permutation_length, sort_desc_perm).
  repeat split.
  - apply in_map_iff in H as (k & <- & Hk). apply in_map_iff in Hk as (p & <- & Hp).
    destruct (Hscored p (Htop p Hp)) as (c & Hc). apply chunks_of_in in Hc as [Hc Hdoc].
    cbn [chunk]. now rewrite (lookup_chunk_in st Hkeys _ _ Hc).
  - apply in_map_iff in H as (k & <- & Hk). apply in_map_iff in Hk as (p & <- & Hp).
    destruct (Hscored p (Htop p Hp)) as (c & Hc). apply chunks_of_in in Hc as [Hc Hdoc].
    cbn [chunk id]. now rewrite (lookup_chunk_in st Hkeys _ _ Hc).
  - rewrite map_map. cbn [id]. rewrite map_id.
    unfold top, slice_to. rewrite <- firstn_map. apply NoDup_firstn.
    apply (Permutation_NoDup (l := map fst scored)); [|exact Hnd].
    apply Permutation_map. symmetry. apply sort_desc_perm.
  - rewrite !length_map. unfold top.
    pose proof (proj1 (slice_to_length (sort_desc snd gtb scored) top_k)). lia.
  - intros Hk. rewrite !length_map. unfold top.
    rewrite (proj2 (slice_to_length (sort_desc snd gtb scored) top_k) Hk). now rewrite Hlen.
Qed.

(** X10.  Without a durable backend, in both modes, retrieval returns only
    chunks of the requested document as they are stored, each at most once,
    never more than the document has, and never more than a non-negative
    [top_k]. *)
Theorem retrieve_in_memory_sound (cfg : Config) (ext : Services) (st : Store)
        (query doc : string) (top_k : Z) (results : list ChunkData) :
  supabase_ready cfg = false ->
  NoDup (Dict.keys (document_chunks st)) ->
  _retrieve_relevant_chunks cfg ext st query doc top_k = Ok results ->
  (forall cd, In cd results ->
     document_id (chunk cd) = doc /\ In (id cd, chunk cd) (document_chunks st)) /\
  NoDup (map id results) /\
  List.length results <= List.length (chunks_of st doc) /\
  ((0 <= top_k)%Z -> Z.of_nat (List.length results) <= top_k)%Z.
Proof.
  intros Hmem Hkeys. unfold _retrieve_relevant_chunks.
  fold (supabase_ready cfg). rewrite Hmem.
  assert (Hempty : forall rs : list ChunkData, Ok (@nil ChunkData) = Ok rs ->
            (forall cd, In cd rs ->
               document_id (chunk cd) = doc /\ In (id cd, chunk cd) (document_chunks st)) /\
            NoDup (map id rs) /\ List.length rs <= List.length (chunks_of st doc) /\
            ((0 <= top_k)%Z -> Z.of_nat (List.length rs) <= top_k)%Z).
  { intros rs H. inversion H. split; [intros cd []|].
    split; [constructor|]. split; simpl; lia. }
  destruct (HAS_OPENAI cfg && truthy_opt (OPENAI_API_KEY cfg)).
  - destruct (_generate_embedding_openai cfg ext query) as [qe| |]; cbn [bind];
      try discriminate.
    unfold vector_search_in_memory.
    destruct (chunks_of st doc) as [|kv others] eqn:Hchunks; [apply Hempty|].
    rewrite <- Hchunks.
    destruct (similarities_of st qe (Dict.items (document_chunks st)) doc)
      as [sims| |] eqn:Hsims; cbn [bind]; try discriminate.
    intros Hres.
    destruct (similarities_of_keys st qe _ doc sims Hsims Hkeys) as (Hnd & Hlen).
    fold (chunks_of st doc) in Hlen.
    destruct (top_chunks_sound st doc Rgtb sims top_k results Hkeys) as (H1 & H2 & H3 & H4);
      try assumption.
    { intros p Hp.
      destruct (similarities_of_sound st qe _ doc sims Hsims p Hp) as (c & e & Hin & Hd & _).
      exists c. apply chunks_of_in. now split. }
    repeat split; try (now apply H1); try exact H2; lia.
  - unfold keyword_search.
    destruct (chunks_of st doc) as [|kv others] eqn:Hchunks; [apply Hempty|].
    rewrite <- Hchunks. intros Hres.
    assert (Hlen : List.length (chunk_scores_of st (set_of (split (lower query))) doc)
                   = List.length (chunks_of st doc))
      by (unfold chunk_scores_of; apply length_map).
    destruct (top_chunks_sound st doc nat_gtb
                (chunk_scores_of st (set_of (split (lower query))) doc)
                top_k results Hkeys) as (H1 & H2 & H3 & H4);
      try exact Hres.
    { unfold chunk_scores_of. intros p Hp. apply in_map_iff in Hp as ([k c] & <- & Hkc).
      now exists c. }
    { unfold chunk_scores_of. rewrite map_map. cbn [fst].
      now apply chunks_of_keys_NoDup. }
    repeat split; try (now apply H1); try exact H2; lia.
Qed.

Lemma retrieve_in_memory_sound_witness :
  In (chunk_id_of "d" 0, mkChunk "d" "hello world" 0) (document_chunks one_chunk_store).
Proof.
  destruct (retrieve_in_memory_sound keyword_cfg answering one_chunk_store "what" "d" 3
              [mkChunkData (mkChunk "d" "hello world" 0) (chunk_id_of "d" 0)])
    as (Hdoc & _).
  - reflexivity.
  - repeat constructor. intros [].
  - reflexivity.
  - exact (proj2 (Hdoc (mkChunkData (mkChunk "d" "hello world" 0) (chunk_id_of "d" 0))
                       (or_introl eq_refl))).
Defined.

(** X11.  In keyword mode retrieval always returns, and for a non-negative
    [top_k] it returns exactly [min(top_k, number of chunks of the document)]
    chunks, whether or not any query word matches: with [top_k] positive it
    is empty only for a document without chunks. *)
Theorem keyword_retrieval_count (cfg : Config) (ext : Services) (st : Store)
        (query doc : string) (top_k : Z) :
  openai_ready cfg = false ->
  NoDup (Dict.keys (document_chunks st)) ->
  (0 <= top_k)%Z ->
  exists results,
    _retrieve_relevant_chunks cfg ext st query doc top_k = Ok results /\
    List.length results = Nat.min (Z.to_nat top_k) (List.length (chunks_of st doc)) /\
    ((0 < top_k)%Z -> (results = [] <-> chunks_of st doc = [])).
Proof.
  intros Hkw Hkeys Hk. unfold _retrieve_relevant_chunks.
  fold (openai_ready cfg). rewrite Hkw. unfold keyword_search.
  destruct (chunks_of st doc) as [|kv others] eqn:Hchunks.
  { exists []. repeat split; auto. simpl. lia. }
  rewrite <- Hchunks.
  assert (Hpresent : forall k, In k (map fst (slice_to
             (sort_desc snd nat_gtb (chunk_scores_of st (set_of (split (lower query))) doc))
             top_k)) -> exists c, In (k, c) (document_chunks st)).
  { intros k Hin. apply in_map_iff in Hin as (p & <- & Hp).
    apply firstn_incl in Hp. apply sort_desc_In in Hp.
    unfold chunk_scores_of in Hp. apply in_map_iff in Hp as ([k c] & <- & Hkc).
    apply chunks_of_in in Hkc as [Hkc _]. eauto. }
  rewrite (chunk_data_of_present st Hkeys _ Hpresent).
  eexists. split; [reflexivity|].
  assert (Hlen : List.length (map (fun k => mkChunkData (lookup_chunk st k) k)
                   (map fst (slice_to
                      (sort_desc snd nat_gtb
                         (chunk_scores_of st (set_of (split (lower query))) doc)) top_k)))
                 = Nat.min (Z.to_nat top_k) (List.length (chunks_of st doc))).
  { rewrite !length_map.
    rewrite (proj2 (slice_to_length _ top_k) Hk).
    rewrite (Permutation_length (sort_desc_perm snd nat_gtb _)).
    unfold chunk_scores_of. now rewrite length_map. }
  split; [exact Hlen|].
  intros Hpos. rewrite Hchunks in *. simpl in Hlen. split.
  - intros Hnil. rewrite Hnil in Hlen. simpl in Hlen. lia.
  - discriminate.
Qed.

Lemma keyword_retrieval_count_witness :
  exists results,
    _retrieve_relevant_chunks keyword_cfg answering one_chunk_store "zebra" "d" 3 = Ok results /\
    List.length results = 1.
Proof.
  destruct (keyword_retrieval_count keyword_cfg answering one_chunk_store "zebra" "d" 3)
    as (results & Hres & Hlen & _).
  - reflexivity.
  - repeat constructor. intros [].
  - lia.
  - exists results. split; [exact Hres|exact Hlen].
Defined.

(** *** The orchestrator *)

Lemma sample_document_text_mem (doc : string) (items : list (string * Chunk)) :
  sample_document_text doc items =
  if Dict.mem doc items then Raise (KeyError "0") else Ok "".
Proof.
  unfold Dict.mem. induction items as [|[doc_id chunks] items IH]; simpl.
  - reflexivity.
  - destruct (String.eqb doc_id doc); simpl; [reflexivity|exact IH].
Qed.

(** X12.  When retrieval finds nothing, [answer_question] calls no provider
    and always answers with an error: the text for a document without
    relevant content, or, when the document id is itself a key of the chunk
    store, the text [0] of the [KeyError] that the sample lookup raises. *)
Theorem answer_question_empty_retrieval (cfg : Config) (ext : Services) (st : Store)
        (question doc model : string) (history : option (list Message)) :
  _retrieve_relevant_chunks cfg ext st question doc 3 = Ok [] ->
  answer_question cfg ext st question doc model history =
  Ok (ErrorResponse (if Dict.mem doc (document_chunks st) then "0" else no_relevant_content)).
Proof.
  intros Hretr. unfold answer_question. rewrite Hretr. cbn [bind].
  rewrite sample_document_text_mem. unfold Dict.items.
  now destruct (Dict.mem doc (document_chunks st)).
Qed.

Lemma answer_question_empty_retrieval_witness :
  answer_question openai_cfg answering one_chunk_store "what" "d_chunk_0" "openai" None
  = Ok (ErrorResponse "0").
Proof.
  apply (answer_question_empty_retrieval openai_cfg answering one_chunk_store
           "what" "d_chunk_0" "openai" None).
  reflexivity.
Defined.

(** X13.  The list of providers to try has no repetition, holds exactly the
    providers that the availability table marks available, never holds
    mistral, and starts with the requested model when that one is
    available. *)
Theorem available_models_exact (cfg : Config) (model : string) :
  NoDup (available_models cfg model) /\
  (forall p, In p (available_models cfg model) <-> is_available cfg p = true) /\
  ~ In "mistral" (available_models cfg model) /\
  (is_available cfg model = true -> hd_error (available_models cfg model) = Some model).
Proof.
  assert (Hin : forall p, In p (available_models cfg model) <-> is_available cfg p = true).
  { intros p. split; [apply available_models_available|].
    intros Hp. unfold available_models. apply in_or_app.
    destruct (String.eqb_spec p model) as [->|Hne].
    - left. rewrite Hp. now left.
    - right. apply filter_In. split.
      + apply is_available_iff in Hp as [[-> _]|[[-> _]|[-> _]]]; unfold fallback_order;
          simpl; auto.
      + rewrite Hp, andb_true_r. apply negb_true_iff. now apply String.eqb_neq. }
  split; [|split; [exact Hin|split]].
  - unfold available_models.
    assert (Hf : NoDup (filter (fun p => negb (String.eqb p model) && is_available cfg p)
                               fallback_order)).
    { apply NoDup_filter. unfold fallback_order.
      repeat constructor; simpl; intuition discriminate. }
    destruct (is_available cfg model); [|exact Hf].
    cbn [app]. constructor; [|exact Hf].
    intros Habs. apply filter_In in Habs as [_ Habs].
    now rewrite String.eqb_refl in Habs.
  - intros Habs. apply Hin in Habs. apply is_available_iff in Habs.
    destruct Habs as [[H _]|[[H _]|[H _]]]; discriminate.
  - intros Hm. unfold available_models. now rewrite Hm.
Qed.

Lemma available_models_exact_witness :
  hd_error (available_models all_cfg "claude") = Some "claude".
Proof.
  destruct (available_models_exact all_cfg "claude") as (_ & _ & _ & Hhd).
  apply Hhd. reflexivity.
Defined.

Lemma attempt_success (cfg : Config) (ext : Services) (p question context : string)
      (history : list Message) (chunks : list ChunkData) (r : Response) :
  attempt cfg ext p question context history chunks = Ok (Some r) ->
  exists answer,
    r = AnswerSuccess answer p chunks /\
    call_provider cfg ext p question context history = Some (Ok answer).
Proof.
  unfold attempt, call_provider.
  destruct (String.eqb_spec p "gemini") as [->|_];
    [|destruct (String.eqb_spec p "openai") as [->|_];
      [|destruct (String.eqb_spec p "claude") as [->|_];
        [|destruct (String.eqb_spec p "mistral") as [->|_]]]].
  5: discriminate.
  all: match goal with |- context [bind ?m _] => destruct m as [answer| |] end;
    cbn [bind]; intros H; inversion H; now exists answer.
Qed.

Lemma try_models_success (cfg : Config) (ext : Services) (models : list string)
      (last_error : option exn) (question context : string) (history : list Message)
      (chunks : list ChunkData) (answer p : string) (sources : list ChunkData) :
  try_models cfg ext models last_error question context history chunks
    = Ok (AnswerSuccess answer p sources) ->
  In p models /\ sources = chunks /\
  call_provider cfg ext p question context history = Some (Ok answer).
Proof.
  revert last_error. induction models as [|q models IH]; intros last_error; cbn [try_models].
  - discriminate.
  - destruct (attempt cfg ext q question context history chunks) as [[r|]|e|] eqn:Ha.
    + intros H. inversion H; subst r.
      apply attempt_success in Ha as (answer' & Heq & Hcall).
      inversion Heq; subst. repeat split; [now left|exact Hcall].
    + intros H. apply IH in H as (Hin & Hs & Hc). repeat split; [now right|..]; assumption.
    + intros H. apply IH in H as (Hin & Hs & Hc). repeat split; [now right|..]; assumption.
    + discriminate.
Qed.

(** X14.  A success response is always backed by what happened: its
    [source_chunks] are the chunks that retrieval returned, [model_used] is
    one of the available providers, and the answer is what that provider
    returned for the question and the context joined from these chunks. *)
Theorem answer_success_provenance (cfg : Config) (ext : Services) (st : Store)
        (question doc model : string) (history : option (list Message))
        (answer p : string) (sources : list ChunkData) :
  answer_question cfg ext st question doc model history
    = Ok (AnswerSuccess answer p sources) ->
  _retrieve_relevant_chunks cfg ext st question doc 3 = Ok sources /\
  sources <> [] /\
  In p (available_models cfg model) /\
  call_provider cfg ext p question (context_of sources) (or_empty history) = Some (Ok answer).
Proof.
  unfold answer_question.
  destruct (_retrieve_relevant_chunks cfg ext st question doc 3) as [[|c chunks]|e|];
    cbn [bind try_except].
  - rewrite sample_document_text_mem.
    destruct (Dict.mem doc (Dict.items (document_chunks st))); cbn; discriminate.
  - destruct (generate cfg ext model question history (c :: chunks)) as [r|e|] eqn:Hg;
      cbn [try_except]; try discriminate.
    intros H. inversion H; subst r. revert Hg. unfold generate.
    fold (context_of (c :: chunks)).
    destruct (available_models cfg model) as [|q models] eqn:Hm; [discriminate|].
    intros Hg. apply try_models_success in Hg as (Hin & -> & Hcall).
    repeat split; try assumption. discriminate.
  - discriminate.
  - discriminate.
Qed.

Lemma answer_success_provenance_witness :
  In "gemini" (available_models gemini_cfg "openai").
Proof.
  destruct (answer_success_provenance gemini_cfg answering one_chunk_store "what" "d"
              "openai" None "gemini says" "gemini"
              [mkChunkData (mkChunk "d" "hello world" 0) (chunk_id_of "d" 0)])
    as (_ & _ & Hin & _).
  - reflexivity.
  - exact Hin.
Defined.

(** *** The provider bindings *)

Lemma ready_check (has : bool) (key : option string) :
  has && truthy_opt key = true -> negb has || negb (truthy_opt key) = false.
Proof. intros H. apply andb_prop in H as [-> ->]. reflexivity. Qed.

Lemma not_ready_check (has : bool) (key : option string) :
  has && truthy_opt key = false -> negb has || negb (truthy_opt key) = true.
Proof. destruct has, (truthy_opt key); simpl; congruence. Qed.

(** X15.  How a failing provider call surfaces.  A binding without library or
    credential raises [ValueError] with the text that names the missing key.
    A configured binding passes the failure of its SDK call on: OpenAI as it
    is, Gemini with the prefix [Failed to generate response with Gemini: ],
    and Claude with its prefix twice, once per nested handler. *)
Theorem provider_error_messages (cfg : Config) (ext : Services)
        (question context : string) (history : list Message) (e : exn) :
  (gemini_ready cfg = false ->
   _generate_answer_gemini cfg ext question context history
   = Raise (ValueError "Gemini API key not available")) /\
  (openai_ready cfg = false ->
   _generate_answer_openai cfg ext question context history
   = Raise (ValueError "OpenAI API key not available")) /\
  (claude_ready cfg = false ->
   _generate_answer_claude cfg ext question context history
   = Raise (ValueError "Claude API key not available")) /\
  (mistral_ready cfg = false ->
   _generate_answer_mistral cfg ext question context history
   = Raise (ValueError "Mistral API key not available")) /\
  (gemini_ready cfg = true ->
   gemini_generate ext (gemini_system_prompt context) history question = Raise e ->
   _generate_answer_gemini cfg ext question context history
   = Raise (ValueError ("Failed to generate response with Gemini: " ++ str_exn e))) /\
  (openai_ready cfg = true ->
   openai_chat_completions_create ext
     ([mkMessage "system" (system_prompt context)] ++ history ++ [mkMessage "user" question])
   = Raise e ->
   _generate_answer_openai cfg ext question context history = Raise e) /\
  (claude_ready cfg = true ->
   anthropic_messages_create ext "claude-3-haiku-20240307" (system_prompt context)
     (chat_roles history ++ [mkMessage "user" question]) = Raise e ->
   _generate_answer_claude cfg ext question context history
   = Raise (ValueError
       ("Failed to generate response with Claude: Failed to generate response with Claude: "
        ++ str_exn e))).
Proof.
  unfold gemini_ready, openai_ready, claude_ready, mistral_ready.
  unfold _generate_answer_gemini, _generate_answer_openai, _generate_answer_claude,
    _generate_answer_mistral.
  repeat split.
  - intros H. now rewrite (not_ready_check _ _ H).
  - intros H. now rewrite (not_ready_check _ _ H).
  - intros H. now rewrite (not_ready_check _ _ H).
  - intros H. now rewrite (not_ready_check _ _ H).
  - intros H Hsdk. now rewrite (ready_check _ _ H), Hsdk.
  - intros H Hsdk. now rewrite (ready_check _ _ H), Hsdk.
  - intros H Hsdk. now rewrite (ready_check _ _ H), Hsdk.
Qed.

Lemma provider_error_messages_witness :
  _generate_answer_claude all_cfg rate_limited "what" "ctx" []
  = Raise (ValueError
      "Failed to generate response with Claude: Failed to generate response with Claude: overloaded").
Proof.
  destruct (provider_error_messages all_cfg rate_limited "what" "ctx" []
              (ExternalError "overloaded")) as (_ & _ & _ & _ & _ & _ & Hclaude).
  now apply Hclaude.
Defined.

Lemma mistral_alternatives_first (ext : Services) (messages : list Message)
      (tried : list string) (alt : string) (rest : list string) (text : string) :
  (forall a, In a tried ->
     mistral_chat ext a messages = Ok None \/ exists e, mistral_chat ext a messages = Raise e) ->
  mistral_chat ext alt messages = Ok (Some text) ->
  mistral_alternatives ext messages (tried ++ alt :: rest) = Ok (Some text).
Proof.
  intros Htried Halt. induction tried as [|a tried IH]; cbn [app mistral_alternatives].
  - now rewrite Halt.
  - destruct (Htried a (or_introl eq_refl)) as [-> | [e ->]];
      apply IH; intros a' Ha'; apply Htried; now right.
Qed.

Lemma mistral_alternatives_none (ext : Services) (messages : list Message)
      (alts : list string) :
  (forall a, In a alts ->
     mistral_chat ext a messages = Ok None \/ exists e, mistral_chat ext a messages = Raise e) ->
  mistral_alternatives ext messages alts = Ok None.
Proof.
  intros Halts. induction alts as [|a alts IH]; cbn [mistral_alternatives].
  - reflexivity.
  - destruct (Halts a (or_introl eq_refl)) as [-> | [e ->]];
      apply IH; intros a' Ha'; apply Halts; now right.
Qed.

(** X16.  The Mistral binding.  A response of [mistral-small] without choices
    is answered with the stock sentence, without trying another model.  When
    the call to [mistral-small] raises, the models [mistral-tiny],
    [open-mistral-7b], [open-mixtral-8x7b] are tried in this order and the
    first response with choices is the answer; when none gives one, the error
    raised carries the message of the first failure, the one of
    [mistral-small]. *)
Theorem mistral_alternatives_order (cfg : Config) (ext : Services)
        (question context : string) (history : list Message) :
  mistral_ready cfg = true ->
  let messages := [mkMessage "system" (system_prompt context)]
                  ++ chat_roles history ++ [mkMessage "user" question] in
  let fails a := mistral_chat ext a messages = Ok None \/
                 exists e, mistral_chat ext a messages = Raise e in
  (mistral_chat ext "mistral-small" messages = Ok None ->
   _generate_answer_mistral cfg ext question context history = Ok no_answer) /\
  (forall e0, mistral_chat ext "mistral-small" messages = Raise e0 ->
     (forall tried alt rest text,
        ["mistral-tiny"; "open-mistral-7b"; "open-mixtral-8x7b"] = tried ++ alt :: rest ->
        (forall a, In a tried -> fails a) ->
        mistral_chat ext alt messages = Ok (Some text) ->
        _generate_answer_mistral cfg ext question context history = Ok text) /\
     ((forall a, In a ["mistral-tiny"; "open-mistral-7b"; "open-mixtral-8x7b"] -> fails a) ->
      _generate_answer_mistral cfg ext question context history
      = Raise (ValueError
          ("Failed to generate response with Mistral: Failed to generate response with any Mistral model: "
           ++ str_exn e0)))).
Proof.
  unfold mistral_ready. intros Hready. cbn zeta.
  unfold _generate_answer_mistral. rewrite (ready_check _ _ Hready).
  split; [|intros e0 Hprimary; split].
  - intros ->. reflexivity.
  - intros tried alt rest text Hsplit Htried Halt.
    rewrite Hprimary. cbn [bind try_except]. rewrite Hsplit.
    now rewrite (mistral_alternatives_first ext _ tried alt rest text Htried Halt).
  - intros Hall. rewrite Hprimary. cbn [bind try_except].
    now rewrite (mistral_alternatives_none ext _ _ Hall).
Qed.

Lemma mistral_alternatives_order_witness :
  _generate_answer_mistral mistral_cfg rate_limited "what" "ctx" [] = Ok "mistral 7b says".
Proof.
  destruct (mistral_alternatives_order mistral_cfg rate_limited "what" "ctx" [] eq_refl)
    as (_ & Hraise).
  destruct (Hraise (ExternalError "no such model") eq_refl) as (Hfirst & _).
  apply (Hfirst ["mistral-tiny"] "open-mistral-7b" ["open-mixtral-8x7b"]).
  - reflexivity.
  - intros a [<-|[]]. right. eexists. reflexivity.
  - reflexivity.
Defined.

(** *** The callers *)

(** X17.  The endpoints [/process-document] and [/answer-question] never
    answer with an [HTTPException]: their handler for exceptions is
    unreachable because the processor catches everything itself.  A failure
    of the processor reaches the client as a normal response whose body has
    status [error]. *)
Theorem endpoints_never_raise (cfg : Config) (ext : Services) (fuel : nat) (st : Store)
        (doc text : string) (chunk_size chunk_overlap : Z)
        (question model : string) (history : option (list Message)) :
  (forall h, fst (api_process_document cfg ext fuel doc text chunk_size chunk_overlap st) = Ok h ->
     exists r, h = Http200 r /\
               fst (process_document cfg ext fuel doc text chunk_size chunk_overlap st) = Ok r) /\
  snd (api_process_document cfg ext fuel doc text chunk_size chunk_overlap st)
  = snd (process_document cfg ext fuel doc text chunk_size chunk_overlap st) /\
  (forall h, api_answer_question cfg ext st question doc model history = Ok h ->
     exists r, h = Http200 r /\
               answer_question cfg ext st question doc model history = Ok r).
Proof.
  destruct (process_document_cases cfg ext fuel doc text chunk_size chunk_overlap st)
    as (Pnr & _).
  destruct (answer_question_cases cfg ext st question doc model history) as (Anr & _).
  cbn zeta in *. unfold api_process_document, api_answer_question.
  destruct (process_document cfg ext fuel doc text chunk_size chunk_overlap st)
    as [[r|e|] st1]; cbn [fst snd] in *.
  2: now elim (Pnr e).
  all: split; [|split; [reflexivity|]].
  all: try (intros h H; inversion H; eauto; fail).
  all: destruct (answer_question cfg ext st question doc model history) as [r'|e'|];
    try (now elim (Anr e')); intros h H; inversion H; eauto.
Qed.

Lemma endpoints_never_raise_witness :
  api_answer_question openai_cfg answering one_chunk_store "what" "d" "openai" None
  = Ok (Http200 (ErrorResponse no_relevant_content)).
Proof.
  destruct (endpoints_never_raise openai_cfg answering 0 one_chunk_store "d" "" 500 100
              "what" "openai" None) as (_ & _ & Hanswer).
  destruct (api_answer_question openai_cfg answering one_chunk_store "what" "d" "openai" None)
    as [h| |] eqn:Hh; try discriminate.
  destruct (Hanswer h eq_refl) as (r & -> & Hr).
  vm_compute in Hr. inversion Hr. reflexivity.
Defined.

(** X18.  The wrappers of [main.py] add nothing to the processor: their own
    exception handlers are never entered, and they return what
    [process_document] and [answer_question] return, with the same store. *)
Theorem main_wrappers_transparent (cfg : Config) (ext : Services) (fuel : nat) (st : Store)
        (doc text : string) (chunk_size chunk_overlap : Z)
        (question model : string) (history : option (list Message)) :
  process_document_for_rag cfg ext fuel doc text chunk_size chunk_overlap st
  = process_document cfg ext fuel doc text chunk_size chunk_overlap st /\
  answer_question_with_rag cfg ext st question doc model history
  = answer_question cfg ext st question doc model history.
Proof.
  destruct (process_document_cases cfg ext fuel doc text chunk_size chunk_overlap st)
    as (Pnr & _).
  destruct (answer_question_cases cfg ext st question doc model history) as (Anr & _).
  cbn zeta in *. unfold process_document_for_rag, answer_question_with_rag, mtry.
  split.
  - destruct (process_document cfg ext fuel doc text chunk_size chunk_overlap st)
      as [[r|e|] st1]; cbn [fst] in *; try reflexivity. now elim (Pnr e).
  - destruct (answer_question cfg ext st question doc model history) as [r|e|];
      try reflexivity. now elim (Anr e).
Qed.

Lemma chat_split_from_last (len : nat) (init : list Message) (last : Message)
      (i : nat) (history : list Message) (q : string) :
  i + List.length (init ++ [last]) = len ->
  chat_split_from i len (init ++ [last]) history q =
  if String.eqb (role last) "user" then (history ++ init, content last)
  else (history ++ init ++ [last], q).
Proof.
  revert i history. induction init as [|m init IH]; intros i history Hlen;
    cbn [app chat_split_from].
  - simpl in Hlen.
    replace (Z.of_nat i =? Z.of_nat len - 1)%Z with true
      by (symmetry; apply Z.eqb_eq; lia).
    cbn [andb]. destruct (String.eqb (role last) "user"); cbn [chat_split_from].
    + now rewrite app_nil_r.
    + now destruct last.
  - rewrite length_app in IH. cbn [List.length app] in Hlen. rewrite length_app in Hlen.
    replace (Z.of_nat i =? Z.of_nat len - 1)%Z with false
      by (symmetry; apply Z.eqb_neq; simpl in Hlen; lia).
    cbn [andb]. rewrite IH by (simpl in *; lia).
    destruct m as [r c]. cbn [role content].
    destruct (String.eqb (role last) "user"); now rewrite <- app_assoc.
Qed.

Lemma chat_split_last (init : list Message) (last : Message) :
  chat_split (init ++ [last]) =
  if String.eqb (role last) "user" then (init, content last) else (init ++ [last], "").
Proof.
  unfold chat_split. now rewrite (chat_split_from_last _ init last 0 [] "").
Qed.

(** X19.  [/chat] with a conversation that ends with a non-empty user message
    asks that message as the question and passes all the messages before it,
    in order, as the history: it answers exactly as [/answer-question] does
    for that question and history. *)
Theorem chat_asks_last_user_message (cfg : Config) (ext : Services)
        (str_http_exception : nat -> string -> string) (st : Store) (doc model : string)
        (init : list Message) (last : Message) :
  role last = "user" ->
  content last <> "" ->
  api_chat cfg ext str_http_exception st doc (init ++ [last]) model
  = api_answer_question cfg ext st (content last) doc model (Some init).
Proof.
  intros Hrole Hcontent. unfold api_chat, api_answer_question.
  rewrite chat_split_last, Hrole. cbn [String.eqb].
  replace (String.eqb "user" "user") with true by reflexivity.
  destruct (content last) as [|c s]; [congruence|]. reflexivity.
Qed.

Lemma chat_asks_last_user_message_witness :
  api_chat gemini_cfg answering (fun _ d => d) one_chunk_store "d"
           ([mkMessage "user" "hi"; mkMessage "assistant" "hello"]
            ++ [mkMessage "user" "what"]) "gemini"
  = api_answer_question gemini_cfg answering one_chunk_store "what" "d" "gemini"
      (Some [mkMessage "user" "hi"; mkMessage "assistant" "hello"]).
Proof.
  apply (chat_asks_last_user_message gemini_cfg answering (fun _ d => d) one_chunk_store
           "d" "gemini" [mkMessage "user" "hi"; mkMessage "assistant" "hello"]
           (mkMessage "user" "what")).
  - reflexivity.
  - discriminate.
Defined.

(** X20.  [/chat] without a question: when the conversation is empty, or its
    last message is not a user message, or that message is empty, the
    [HTTPException] with status 400 is raised inside the [try], caught by its
    own handler and answered as status 500; earlier user messages are not
    used as the question and no provider is called. *)
Theorem chat_without_question (cfg : Config) (ext : Services)
        (str_http_exception : nat -> string -> string) (st : Store) (doc model : string)
        (messages : list Message) :
  (messages = [] \/
   exists init last, messages = init ++ [last] /\
                     (role last <> "user" \/ content last = "")) ->
  api_chat cfg ext str_http_exception st doc messages model
  = Ok (HttpError 500
          (str_http_exception 400 "No user question found in the conversation")).
Proof.
  intros [->|(init & last & -> & Hlast)]; unfold api_chat.
  - reflexivity.
  - rewrite chat_split_last.
    destruct (String.eqb_spec (role last) "user") as [Hrole|Hrole].
    + destruct Hlast as [Hno|Hempty]; [contradiction|]. now rewrite Hempty.
    + reflexivity.
Qed.

Lemma chat_without_question_witness :
  api_chat gemini_cfg answering (fun _ d => d) one_chunk_store "d"
           ([mkMessage "user" "what"] ++ [mkMessage "assistant" "hello"]) "gemini"
  = Ok (HttpError 500 "No user question found in the conversation").
Proof.
  apply (chat_without_question gemini_cfg answering (fun _ d => d) one_chunk_store
           "d" "gemini").
  right. exists [mkMessage "user" "what"], (mkMessage "assistant" "hello").
  split; [reflexivity|]. left. discriminate.
Defined.

(** *** Two edges *)

(** X21.  With [chunk_overlap >= chunk_size >= 0] and a text of more than
    [chunk_size] words, [process_document] does not return: the chunker loops
    before anything is stored, whatever the fuel. *)
Theorem process_document_hangs (cfg : Config) (ext : Services) (fuel : nat)
        (doc text : string) (chunk_size chunk_overlap : Z) (st : Store) :
  (0 <= chunk_size <= chunk_overlap)%Z ->
  (chunk_size < Z.of_nat (List.length (split text)))%Z ->
  process_document cfg ext fuel doc text chunk_size chunk_overlap st = (OutOfFuel, st).
Proof.
  intros Hcfg Hlong.
  unfold process_document, mtry, process_document_body, mbind, lift.
  now rewrite chunk_document_overlap_no_return.
Qed.

Lemma process_document_hangs_witness :
  process_document keyword_cfg answering 1000 "d" "a b" 1 1 init = (OutOfFuel, init).
Proof.
  apply (process_document_hangs keyword_cfg answering 1000 "d" "a b" 1 1 init).
  - lia.
  - simpl. lia.
Defined.

Lemma sort_desc_all_equal {A K : Type} (key : A -> K) (gtb : K -> K -> bool) (l : list A) :
  (forall x y, In x l -> In y l -> gtb (key x) (key y) = false) ->
  sort_desc key gtb l = l.
Proof.
  induction l as [|x l IH]; intros Heq; simpl; [reflexivity|].
  rewrite IH by (intros a b Ha Hb; apply Heq; now right).
  destruct l as [|y l]; simpl; [reflexivity|].
  now rewrite (Heq y x (or_intror (or_introl eq_refl)) (or_introl eq_refl)).
Qed.

Lemma slice_to_map {A B : Type} (f : A -> B) (l : list A) (hi : Z) :
  slice_to (map f l) hi = map f (slice_to l hi).
Proof. unfold slice_to. now rewrite length_map, firstn_map. Qed.

(** X22.  In keyword mode a query without any word scores every chunk 0, and
    retrieval returns the first chunks of the document in the order of the
    store, up to [top_k]. *)
Theorem keyword_retrieval_empty_query (cfg : Config) (ext : Services) (st : Store)
        (query doc : string) (top_k : Z) :
  openai_ready cfg = false ->
  NoDup (Dict.keys (document_chunks st)) ->
  split (lower query) = [] ->
  _retrieve_relevant_chunks cfg ext st query doc top_k =
  Ok (map (fun kv => mkChunkData (snd kv) (fst kv)) (slice_to (chunks_of st doc) top_k)).
Proof.
  intros Hkw Hkeys Hq. unfold _retrieve_relevant_chunks.
  fold (openai_ready cfg). rewrite Hkw. unfold keyword_search.
  destruct (chunks_of st doc) as [|kv others] eqn:Hchunks.
  { unfold slice_to. now rewrite firstn_nil. }
  rewrite <- Hchunks. rewrite Hq. unfold chunk_scores_of, keyword_score.
  cbn [set_of nodup filter List.length].
  rewrite sort_desc_all_equal.
  2: { intros x y Hx Hy. apply in_map_iff in Hx as (? & <- & _).
       apply in_map_iff in Hy as (? & <- & _). reflexivity. }
  rewrite slice_to_map, map_map. cbn [fst].
  rewrite (chunk_data_of_present st Hkeys).
  - f_equal. rewrite map_map. apply map_ext_in. intros [k c] Hin. cbn [fst snd].
    apply firstn_incl in Hin. apply chunks_of_in in Hin as [Hin _].
    now rewrite (lookup_chunk_in st Hkeys _ _ Hin).
  - intros k Hk. apply in_map_iff in Hk as ([k' c] & <- & Hin).
    apply firstn_incl in Hin. apply chunks_of_in in Hin as [Hin _]. eauto.
Qed.

Lemma keyword_retrieval_empty_query_witness :
  _retrieve_relevant_chunks keyword_cfg answering one_chunk_store "  " "d" 3
  = Ok [mkChunkData (mkChunk "d" "hello world" 0) (chunk_id_of "d" 0)].
Proof.
  rewrite (keyword_retrieval_empty_query keyword_cfg answering one_chunk_store "  " "d" 3).
  - reflexivity.
  - reflexivity.
  - repeat constructor. intros [].
  - reflexivity.
Defined.

